(** * Connection registry and identity-provider configuration

    A shallow embedding of two Go packages:

    - package [database]: the backend struct with its map of [*sql.DB]
      handles, [DBConnection], [ResetDB] and [Lease];
    - package [okta]: [Config], [pathConfigRead], [pathConfigWrite] and
      [pathConfigExistenceCheck] over a single [ConfigEntry].

    Go's [(value, error)] results are kept as pairs, a nil pointer is a
    constructor of its own, and every call that leaves the package
    (storage, JSON, the connector, [Close]) is recorded in a trace so that
    the number and order of those calls can be stated. *)

From Stdlib Require Import ZArith Ascii String List Lia.
From stdpp Require Import base option list gmap strings.

Local Open Scope string_scope.
Local Open Scope list_scope.

(** ** Package [logical]: errors, storage entries, the storage interface *)

Module Logical.

(** A Go [error] value, identified by the text of its [Error()]. *)
Record error := Errorf { Error : string }.

#[global] Instance error_eq_dec : EqDecision error.
Proof. solve_decision. Defined.

(** [[]byte] *)
Abbreviation bytes := (list Byte.byte).

#[global] Instance byte_eq_dec : EqDecision Byte.byte := Byte.byte_eq_dec.

Definition bytes_of (s : string) : bytes := list_byte_of_string s.

Record StorageEntry := mkEntry { Key : string; Value : bytes }.

#[global] Instance StorageEntry_eq_dec : EqDecision StorageEntry.
Proof. solve_decision. Defined.

(** The [logical.Storage] interface.  [Get] answers with an error, with
    a nil entry, or with an entry; [Put] answers with an optional error
    and leaves the backing store in some state. *)
Class Storage (S : Type) := {
  Get : S -> string -> error + option StorageEntry;
  Put : S -> StorageEntry -> option error * S
}.

(** An in-memory store: one byte string per key. *)
Definition InmemStorage := gmap string bytes.

#[global] Instance Inmem : Storage InmemStorage := {
  Get m k := inr (mkEntry k <$> (m : gmap string bytes) !! k);
  Put m e := (None, <[Key e := Value e]> (m : gmap string bytes))
}.

(** A store that is unreachable: every call reports the same error. *)
Inductive SealedStorage := Sealed.

Definition ErrSealed : error := Errorf "Vault is sealed".

#[global] Instance SealedStore : Storage SealedStorage := {
  Get _ _ := inl ErrSealed;
  Put s _ := (Some ErrSealed, s)
}.

End Logical.

(** ** Package [database] *)

Module Database.
Import Logical.

(** [*sql.DB]: nil, or the address of a [sql.DB] object. *)
Inductive sqlDB_ptr := NilDB | DBAt (addr : nat).

#[global] Instance sqlDB_ptr_eq_dec : EqDecision sqlDB_ptr.
Proof. solve_decision. Defined.

(** [configDB]: the stored envelope, a type tag and a raw payload. *)
Record configDB := mkConfigDB { DatabaseType : string; ConfigInfo : bytes }.

(** Modelled from the spec: the struct [configLease] is declared outside
    the files at hand; its two fields are those of the persisted
    [config/lease] entry, in seconds. *)
Record configLease := mkConfigLease { default_ttl : Z; max_ttl : Z }.

#[global] Instance configLease_eq_dec : EqDecision configLease.
Proof. solve_decision. Defined.

(** What the package calls but does not define: the two engine
    configuration structs, the JSON decoders, and [Connect]. *)
Class Collaborators := {
  configPostgres : Type;
  configMySQL : Type;
  (** [entry.DecodeJSON(&dbInfo)] *)
  DecodeJSON_configDB : StorageEntry -> error + configDB;
  (** [entry.DecodeJSON(&result)] for a [configLease] *)
  DecodeJSON_configLease : StorageEntry -> error + configLease;
  (** [json.Unmarshal(dbInfo.ConfigInfo, &config)] at each struct *)
  Unmarshal_configPostgres : bytes -> error + configPostgres;
  Unmarshal_configMySQL : bytes -> error + configMySQL;
}.

Section WithCollaborators.
Context `{Collaborators}.

(** The second argument of [Connect]: either engine's configuration. *)
Inductive dbConfig :=
| OfPostgres (config : configPostgres)
| OfMySQL (config : configMySQL).

(** Calls that leave the package, in the order they are made. *)
Inductive event :=
| LoggerTrace (msg : string)
| Println (format : string) (arg : string)
| StorageGet (path : string)
| DecodeJSON (entry : StorageEntry)
| Unmarshal (data : bytes)
| ConnectCall (db : sqlDB_ptr) (config : dbConfig)
| CloseCall (db : sqlDB_ptr).

Definition is_get (e : event) : bool :=
  match e with StorageGet _ => true | _ => false end.
Definition is_decode (e : event) : bool :=
  match e with DecodeJSON _ => true | _ => false end.
Definition is_connect (e : event) : bool :=
  match e with ConnectCall _ _ => true | _ => false end.
Definition is_close (e : event) : bool :=
  match e with CloseCall _ => true | _ => false end.

(** How many calls of one kind a trace holds. *)
Definition count (P : event -> bool) (tr : list event) : nat :=
  length (List.filter P tr).

(** The handles [Close] was called on, in order. *)
Definition closed (tr : list event) : list sqlDB_ptr :=
  omap (fun e => match e with CloseCall db => Some db | _ => None end) tr.

(** The pointers [Connect] was called with, in order. *)
Definition connected (tr : list event) : list sqlDB_ptr :=
  omap (fun e => match e with ConnectCall db _ => Some db | _ => None end) tr.

(** [Connect(db, config)] gets the pointer by value and answers with
    an error or nil. *)
Variable Connect : sqlDB_ptr -> dbConfig -> option error.

(** The fields of [backend] that the methods use.  [lock] is modelled
    with the threads, in [Module Concurrent]. *)
Record backend := mkBackend { dbs : gmap string sqlDB_ptr }.

(** [Backend(conf)]: the map starts out as [make(map[string]*sql.DB)]. *)
Definition Backend : backend := mkBackend ∅.

(** [b.dbs[name]]: reading a key a Go map lacks yields the zero
    value, nil. *)
Definition dbs_at (b : backend) (name : string) : sqlDB_ptr :=
  default NilDB (dbs b !! name).

(** A method body: it reads and updates the backend and extends the
    trace. *)
Definition M (A : Type) : Type := backend * list event -> A * (backend * list event).

Definition ret {A} (a : A) : M A := fun st => (a, st).
Definition bind {A B} (m : M A) (k : A -> M B) : M B :=
  fun st => let '(a, st') := m st in k a st'.
Definition emit (e : event) : M unit :=
  fun '(b, tr) => (tt, (b, tr ++ [e])).
Definition get_backend : M backend := fun '(b, tr) => (b, (b, tr)).
Definition put_backend (b : backend) : M unit := fun '(_, tr) => (tt, (b, tr)).

Notation "x <- m ;; k" := (bind m (fun x => k))
  (at level 100, m at next level, right associativity).
Notation "m ;; k" := (bind m (fun _ => k))
  (at level 100, right associativity).

(** [defer f; body]: [f] runs after the body, whatever it returns. *)
Definition defer {A} (f : M unit) (body : M A) : M A :=
  r <- body ;; f ;; ret r.

Section WithStorage.
Context {S : Type} `{Storage S}.

Definition DBConnection (s : S) (name : string) : M (sqlDB_ptr * option error) :=
  emit (LoggerTrace "db: enter") ;;
  defer (emit (LoggerTrace "db: exit")) (
    (* Attempt to find connection configuration *)
    emit (StorageGet ("dbs/" +:+ name)) ;;
    match Get s ("dbs/" +:+ name) with
    | inl err =>
        emit (Println "can't find dbs/%s" name) ;;
        ret (NilDB, Some err)
    | inr None =>
        ret (NilDB, Some (Errorf "configure the DB connection with dbs/<name> first"))
    | inr (Some entry) =>
        emit (DecodeJSON entry) ;;
        match DecodeJSON_configDB entry with
        | inl err => ret (NilDB, Some err)
        | inr dbInfo =>
            if String.eqb (DatabaseType dbInfo) "postgres" then
              emit (Unmarshal (ConfigInfo dbInfo)) ;;
              match Unmarshal_configPostgres (ConfigInfo dbInfo) with
              | inl _ => ret (NilDB, Some (Errorf "failure to unmarshal config data"))
              | inr config =>
                  b <- get_backend ;;
                  emit (ConnectCall (dbs_at b name) (OfPostgres config)) ;;
                  let err := Connect (dbs_at b name) (OfPostgres config) in
                  b <- get_backend ;;
                  ret (dbs_at b name, None)
              end
            else if String.eqb (DatabaseType dbInfo) "mysql" then
              emit (Unmarshal (ConfigInfo dbInfo)) ;;
              match Unmarshal_configMySQL (ConfigInfo dbInfo) with
              | inl _ => ret (NilDB, Some (Errorf "failure to unmarshal config data"))
              | inr config =>
                  b <- get_backend ;;
                  emit (ConnectCall (dbs_at b name) (OfMySQL config)) ;;
                  let err := Connect (dbs_at b name) (OfMySQL config) in
                  b <- get_backend ;;
                  ret (dbs_at b name, None)
              end
            else
              ret (NilDB, Some (Errorf "database type not recognized"))
        end
    end).

Definition Lease (s : S) : option configLease * option error :=
  match Get s "config/lease" with
  | inl err => (None, Some err)
  | inr None => (None, None)
  | inr (Some entry) =>
      match DecodeJSON_configLease entry with
      | inl err => (None, Some err)
      | inr result => (Some result, None)
      end
  end.




Definition stored_envelope (s : S) (name : string) (entry : StorageEntry) (dbInfo : configDB) : Prop :=
  Get s ("dbs/" +:+ name) = inr (Some entry) /\ DecodeJSON_configDB entry = inr dbInfo.



Definition typed_config (dbInfo : configDB) (cfg : dbConfig) : Prop :=
  (DatabaseType dbInfo = "postgres" /\
   exists config, Unmarshal_configPostgres (ConfigInfo dbInfo) = inr config /\
                  cfg = OfPostgres config) \/
  (DatabaseType dbInfo = "mysql" /\
   exists config, Unmarshal_configMySQL (ConfigInfo dbInfo) = inr config /\
                  cfg = OfMySQL config).

End WithStorage.

(** ResetDB forces a connection on the next call to DBConnection() *)
Definition ResetDB (name : string) : M unit :=
  emit (LoggerTrace "db/resetdb: enter") ;;
  defer (emit (LoggerTrace "db/resetdb: exit")) (
    b <- get_backend ;;
    (if decide (dbs_at b name <> NilDB)
     then emit (CloseCall (dbs_at b name))
     else ret tt) ;;
    b <- get_backend ;;
    put_backend (mkBackend (<[name := NilDB]> (dbs b)))).

End WithCollaborators.
End Database.

(** ** Package [framework]: request fields *)

Module Framework.

(** An [interface{}] as the handlers meet it: a string, an int, or a
    [time.Duration]. *)
Inductive value := VString (s : string) | VInt (n : Z) | VDuration (d : Z).

#[global] Instance value_eq_dec : EqDecision value.
Proof. solve_decision. Defined.

Inductive FieldType := TypeString | TypeDurationSecond.

(** [framework.FieldData] through its two accessors: [GetOk] answers
    with the value of a field the request carries, [Get] answers also
    for a field the request lacks, with that field's default. *)
Record FieldData := mkFieldData {
  GetOk : string -> option value;
  Get : string -> value
}.

(** The Go type behind each field type: [string], and [int] seconds. *)
Definition has_type (t : FieldType) (v : value) : bool :=
  match t, v with
  | TypeString, VString _ => true
  | TypeDurationSecond, VInt _ => true
  | _, _ => false
  end.

(** Both accessors hand out values of the declared type. *)
Definition conforms (schema : list (string * FieldType)) (d : FieldData) : bool :=
  forallb (fun '(k, t) =>
             has_type t (Get d k) &&
             match GetOk d k with Some v => has_type t v | None => true end)
          schema.

End Framework.

(** ** Package [okta] *)

Module Okta.
Import Logical.
Export Framework.

(** [time.Duration]: a 64-bit signed count of nanoseconds. *)
Definition wrap64 (z : Z) : Z := (z + 2 ^ 63) mod 2 ^ 64 - 2 ^ 63.
Definition Second : Z := 1000000000.
(** [time.Duration(n) * time.Second] *)
Definition seconds (n : Z) : Z := wrap64 (wrap64 n * Second).

(** ConfigEntry for Okta *)
Record ConfigEntry := mkConfigEntry {
  Org : string;
  Token : string;
  BaseURL : string;
  TTL : Z;
  MaxTTL : Z
}.

#[global] Instance ConfigEntry_eq_dec : EqDecision ConfigEntry.
Proof. solve_decision. Defined.

(** [&ConfigEntry{}] *)
Definition zeroConfigEntry : ConfigEntry := mkConfigEntry EmptyString EmptyString EmptyString 0 0.

Definition set_Org (v : string) (c : ConfigEntry) := mkConfigEntry v (Token c) (BaseURL c) (TTL c) (MaxTTL c).
Definition set_Token (v : string) (c : ConfigEntry) := mkConfigEntry (Org c) v (BaseURL c) (TTL c) (MaxTTL c).
Definition set_BaseURL (v : string) (c : ConfigEntry) := mkConfigEntry (Org c) (Token c) v (TTL c) (MaxTTL c).
Definition set_TTL (v : Z) (c : ConfigEntry) := mkConfigEntry (Org c) (Token c) (BaseURL c) v (MaxTTL c).
Definition set_MaxTTL (v : Z) (c : ConfigEntry) := mkConfigEntry (Org c) (Token c) (BaseURL c) (TTL c) v.

(** The [Fields] of [pathConfig]. *)
Definition Fields : list (string * FieldType) :=
  [ ("organization", TypeString);
    ("token", TypeString);
    ("base_url", TypeString);
    ("ttl", TypeDurationSecond);
    ("max_ttl", TypeDurationSecond) ].

Inductive Operation :=
| CreateOperation | ReadOperation | UpdateOperation | DeleteOperation | ListOperation.

#[global] Instance Operation_eq_dec : EqDecision Operation.
Proof. solve_decision. Defined.

Record Request (S : Type) := mkRequest { Op : Operation; Storage_of : S }.
Arguments mkRequest {S} _ _.
Arguments Op {S} _.
Arguments Storage_of {S} _.

(** [*logical.Response]: a data map, or what [logical.ErrorResponse]
    builds from a text. *)
Inductive Response :=
| mkResponse (Data : gmap string value)
| ErrorResponse (text : string).

(** What the package calls but does not define. *)
Class Collaborators := {
  (** [entry.DecodeJSON(&result)] *)
  DecodeJSON_ConfigEntry : StorageEntry -> error + ConfigEntry;
  (** [logical.StorageEntryJSON(k, cfg)] *)
  StorageEntryJSON : string -> ConfigEntry -> error + StorageEntry;
  (** the error of [url.Parse] *)
  url_Parse : string -> option error;
}.

(** The merge of a write, as the explicit function of the design notes
    (it is compared with the handler below, not taken from it): from the
    record at hand (the stored one, or the zero record), the request's
    fields and the operation to the record to store.  A field the request carries
    takes the request's value (an empty [base_url] leaves the field as it
    is); a field it lacks takes the field's default on a create and stays
    as it is otherwise. *)
Definition merge_string (cur : string) (given : option value) (dflt : value)
    (op : Operation) : string :=
  match given with
  | Some (VString v) => v
  | Some _ => cur
  | None =>
      match op, dflt with
      | CreateOperation, VString v => v
      | _, _ => cur
      end
  end.

Definition merge_seconds (cur : Z) (given : option value) (dflt : value)
    (op : Operation) : Z :=
  match given with
  | Some (VInt n) => seconds n
  | Some _ => cur
  | None =>
      match op, dflt with
      | CreateOperation, VInt n => seconds n
      | _, _ => cur
      end
  end.

Definition merge_fields (old : ConfigEntry) (d : FieldData) (op : Operation) : ConfigEntry :=
  mkConfigEntry
    (merge_string (Org old) (GetOk d "organization") (Get d "organization") op)
    (merge_string (Token old) (GetOk d "token") (Get d "token") op)
    (match GetOk d "base_url" with
     | Some (VString EmptyString) => BaseURL old
     | given => merge_string (BaseURL old) given (Get d "base_url") op
     end)
    (merge_seconds (TTL old) (GetOk d "ttl") (Get d "ttl") op)
    (merge_seconds (MaxTTL old) (GetOk d "max_ttl") (Get d "max_ttl") op).

(** Where a handler body stands: it has panicked, it has returned, or
    it goes on with a value. *)
Inductive step (R A : Type) :=
| Panic
| Return (r : R)
| Next (a : A).
Arguments Panic {R A}.
Arguments Return {R A} _.
Arguments Next {R A} _.

Definition andThen {R A B} (m : step R A) (k : A -> step R B) : step R B :=
  match m with
  | Panic => Panic
  | Return r => Return r
  | Next a => k a
  end.

Notation "'do' x <- m ; k" := (andThen m (fun x => k))
  (at level 10, x name, m at level 100, k at level 200).

(** A handler's answer, or nothing when it panicked. *)
Definition finish {R} (m : step R R) : option R :=
  match m with
  | Panic => None
  | Return r => Some r
  | Next r => Some r
  end.

(** The type assertions [v.(string)] and [v.(int)]. *)
Definition as_string {R} (v : value) : step R string :=
  match v with VString s => Next s | _ => Panic end.
Definition as_int {R} (v : value) : step R Z :=
  match v with VInt n => Next n | _ => Panic end.

Section WithCollaborators.
Context `{Collaborators} {S : Type} `{Storage S}.

(** Config returns the configuration for this backend. *)
Definition Config (s : S) : option ConfigEntry * option error :=
  match Logical.Get s "config" with
  | inl err => (None, Some err)
  | inr None => (None, None)
  | inr (Some entry) =>
      match DecodeJSON_ConfigEntry entry with
      | inl err => (None, Some err)
      | inr result => (Some result, None)
      end
  end.

Definition pathConfigRead (req : Request S) (d : FieldData)
  : option Response * option error :=
  match Config (Storage_of req) with
  | (_, Some err) => (None, Some err)
  | (None, None) => (None, None)
  | (Some cfg, None) =>
      (Some (mkResponse
         (<["organization" := VString (Org cfg)]>
          (<["base_url" := VString (BaseURL cfg)]>
           (<["ttl" := VDuration (TTL cfg)]>
            (<["max_ttl" := VDuration (MaxTTL cfg)]> ∅))))),
       None)
  end.

(** The answer of [pathConfigWrite] together with the storage it
    leaves behind. *)
Definition written : Type := (option Response * option error) * S.

Definition pathConfigWrite (req : Request S) (d : FieldData) : option written :=
  let s := Storage_of req in
  finish (
    match Config s with
    | (_, Some err) => Return ((None, Some err), s)
    | (cfg, None) =>
      (* Due to the existence check, entry will only be nil if it's a
         create operation, so just create a new one *)
      let cfg := match cfg with None => zeroConfigEntry | Some c => c end in

      do cfg <- match Framework.GetOk d "organization" with
                | Some org => do v <- as_string org ; Next (set_Org v cfg)
                | None =>
                    if decide (Op req = CreateOperation)
                    then do v <- as_string (Framework.Get d "organization") ; Next (set_Org v cfg)
                    else Next cfg
                end ;

      do cfg <- match Framework.GetOk d "token" with
                | Some token => do v <- as_string token ; Next (set_Token v cfg)
                | None =>
                    if decide (Op req = CreateOperation)
                    then do v <- as_string (Framework.Get d "token") ; Next (set_Token v cfg)
                    else Next cfg
                end ;

      do cfg <- match Framework.GetOk d "base_url" with
                | Some baseURL =>
                    do baseURLString <- as_string baseURL ;
                    if negb (String.length baseURLString =? 0)%nat then
                      match url_Parse baseURLString with
                      | Some err =>
                          Return ((Some (ErrorResponse
                                     ("Error parsing given base_url: " +:+ Error err)),
                                   None), s)
                      | None => Next (set_BaseURL baseURLString cfg)
                      end
                    else Next cfg
                | None =>
                    if decide (Op req = CreateOperation)
                    then do v <- as_string (Framework.Get d "base_url") ; Next (set_BaseURL v cfg)
                    else Next cfg
                end ;

      do cfg <- match Framework.GetOk d "ttl" with
                | Some ttl => do n <- as_int ttl ; Next (set_TTL (seconds n) cfg)
                | None =>
                    if decide (Op req = CreateOperation)
                    then do n <- as_int (Framework.Get d "ttl") ; Next (set_TTL (seconds n) cfg)
                    else Next cfg
                end ;

      do cfg <- match Framework.GetOk d "max_ttl" with
                | Some maxTTL => do n <- as_int maxTTL ; Next (set_MaxTTL (seconds n) cfg)
                | None =>
                    if decide (Op req = CreateOperation)
                    then do n <- as_int (Framework.Get d "max_ttl") ; Next (set_MaxTTL (seconds n) cfg)
                    else Next cfg
                end ;

      match StorageEntryJSON "config" cfg with
      | inl err => Return ((None, Some err), s)
      | inr jsonCfg =>
          match Logical.Put s jsonCfg with
          | (Some err, s') => Return ((None, Some err), s')
          | (None, s') => Return ((None, None), s')
          end
      end
    end).

Definition pathConfigExistenceCheck (req : Request S) (d : FieldData)
  : bool * option error :=
  match Config (Storage_of req) with
  | (_, Some err) => (false, Some err)
  | (cfg, None) => (bool_decide (cfg <> None), None)
  end.

End WithCollaborators.

(** [okta.Client], as far as [OktaClient] reads and sets it: the
    organization the client was made for, the endpoint, the API token. *)
Record Client := mkClient { client_org : string; Url : string; ApiToken : string }.

Section WithClient.
(** [okta.NewClient], of the client library. *)
Variable NewClient : string -> Client.

(** OktaClient creates a basic okta client connection *)
Definition OktaClient (c : ConfigEntry) : Client :=
  let client := NewClient (Org c) in
  let client :=
    if negb (String.eqb (BaseURL c) EmptyString)
    then mkClient (client_org client) (BaseURL c) (ApiToken client)
    else client in
  let client :=
    if negb (String.eqb (Token c) EmptyString)
    then mkClient (client_org client) (Url client) (Token c)
    else client in
  client.

End WithClient.
End Okta.

(** ** Threads calling into one [backend]

    Each thread runs one method call.  A call is cut at the places where
    another thread could run in between: the trace call on entry,
    [b.lock.Lock()], each statement of the body that touches storage, the
    connector or the map, the deferred [b.lock.Unlock()], and the deferred
    trace call on exit (deferred calls run last-registered first). *)

Module Concurrent.
Import Logical Database.

Section WithCollaborators.
Context `{Collaborators} {S : Type} `{Storage S}.
Variable s : S.

Inductive call :=
| CallDBConnection (name : string)
| CallResetDB (name : string).

(** What a finished call hands back: [DBConnection] a pair, [ResetDB]
    nothing. *)
Definition answer : Type := option (sqlDB_ptr * option error).

Inductive pc :=
| pcEnter
| pcLock
| pcGet
| pcDecode (entry : StorageEntry)
| pcConnect (config : dbConfig)
| pcFetch
| pcClose
| pcClear
| pcUnlock (r : answer)
| pcExit (r : answer)
| pcDone (r : answer).

(** One step of a thread at [p], given the mutex and the backend:
    the next program point, the mutex, the backend, and the calls
    made.  [None]: the thread cannot move (it waits in [Lock], or it
    is done). *)
Definition step_thread (c : call) (p : pc) (locked : bool) (b : backend)
  : option (pc * bool * backend * list event) :=
  match c, p with
  | CallDBConnection _, pcEnter => Some (pcLock, locked, b, [LoggerTrace "db: enter"])
  | CallResetDB _, pcEnter => Some (pcLock, locked, b, [LoggerTrace "db/resetdb: enter"])
  | CallDBConnection _, pcLock => if locked then None else Some (pcGet, true, b, [])
  | CallResetDB _, pcLock => if locked then None else Some (pcClose, true, b, [])
  | CallDBConnection name, pcGet =>
      match Get s ("dbs/" +:+ name) with
      | inl err =>
          Some (pcUnlock (Some (NilDB, Some err)), locked, b,
                [StorageGet ("dbs/" +:+ name); Println "can't find dbs/%s" name])
      | inr None =>
          Some (pcUnlock (Some (NilDB,
                  Some (Errorf "configure the DB connection with dbs/<name> first"))),
                locked, b, [StorageGet ("dbs/" +:+ name)])
      | inr (Some entry) =>
          Some (pcDecode entry, locked, b, [StorageGet ("dbs/" +:+ name)])
      end
  | CallDBConnection name, pcDecode entry =>
      match DecodeJSON_configDB entry with
      | inl err => Some (pcUnlock (Some (NilDB, Some err)), locked, b, [DecodeJSON entry])
      | inr dbInfo =>
          if String.eqb (DatabaseType dbInfo) "postgres" then
            match Unmarshal_configPostgres (ConfigInfo dbInfo) with
            | inl _ =>
                Some (pcUnlock (Some (NilDB, Some (Errorf "failure to unmarshal config data"))),
                      locked, b, [DecodeJSON entry; Unmarshal (ConfigInfo dbInfo)])
            | inr config =>
                Some (pcConnect (OfPostgres config), locked, b,
                      [DecodeJSON entry; Unmarshal (ConfigInfo dbInfo)])
            end
          else if String.eqb (DatabaseType dbInfo) "mysql" then
            match Unmarshal_configMySQL (ConfigInfo dbInfo) with
            | inl _ =>
                Some (pcUnlock (Some (NilDB, Some (Errorf "failure to unmarshal config data"))),
                      locked, b, [DecodeJSON entry; Unmarshal (ConfigInfo dbInfo)])
            | inr config =>
                Some (pcConnect (OfMySQL config), locked, b,
                      [DecodeJSON entry; Unmarshal (ConfigInfo dbInfo)])
            end
          else
            Some (pcUnlock (Some (NilDB, Some (Errorf "database type not recognized"))),
                  locked, b, [DecodeJSON entry])
      end
  | CallDBConnection name, pcConnect config =>
      Some (pcFetch, locked, b, [ConnectCall (dbs_at b name) config])
  | CallDBConnection name, pcFetch =>
      Some (pcUnlock (Some (dbs_at b name, None)), locked, b, [])
  | CallResetDB name, pcClose =>
      Some (pcClear, locked, b,
            if decide (dbs_at b name <> NilDB) then [CloseCall (dbs_at b name)] else [])
  | CallResetDB name, pcClear =>
      Some (pcUnlock None, locked, mkBackend (<[name := NilDB]> (dbs b)), [])
  | _, pcUnlock r => Some (pcExit r, false, b, [])
  | CallDBConnection _, pcExit r => Some (pcDone r, locked, b, [LoggerTrace "db: exit"])
  | CallResetDB _, pcExit r => Some (pcDone r, locked, b, [LoggerTrace "db/resetdb: exit"])
  | _, _ => None
  end.

Record state := mkState {
  locked : bool;
  shared : backend;
  trace : list event;
  threads : list (call * pc)
}.

(** Thread [i] moves. *)
Definition step (i : nat) (st : state) : option state :=
  match threads st !! i with
  | None => None
  | Some (c, p) =>
      match step_thread c p (locked st) (shared st) with
      | None => None
      | Some (p', locked', b', evs) =>
          Some (mkState locked' b' (trace st ++ evs) (<[i := (c, p')]> (threads st)))
      end
  end.

(** A schedule names the thread that moves at each turn. *)
Fixpoint run (schedule : list nat) (st : state) : option state :=
  match schedule with
  | [] => Some st
  | i :: rest =>
      match step i st with
      | None => None
      | Some st' => run rest st'
      end
  end.

Definition init (calls : list call) (b : backend) : state :=
  mkState false b [] (map (fun c => (c, pcEnter)) calls).

(** Between [Lock] and [Unlock]. *)
Definition holds_lock (p : pc) : bool :=
  match p with
  | pcGet | pcDecode _ | pcConnect _ | pcFetch | pcClose | pcClear | pcUnlock _ => true
  | _ => false
  end.

Definition is_done (p : pc) : bool :=
  match p with pcDone _ => true | _ => false end.

(** Past the [Connect] statement: at the return, or back with a nil
    error. *)
Definition has_connected (p : pc) : bool :=
  match p with
  | pcFetch => true
  | pcUnlock (Some (_, None)) | pcExit (Some (_, None)) | pcDone (Some (_, None)) => true
  | _ => false
  end.

Definition count_pc (P : pc -> bool) (ts : list (call * pc)) : nat :=
  length (List.filter (fun t => P (snd t)) ts).

Definition all_done (st : state) : bool :=
  forallb (fun t => is_done (snd t)) (threads st).

(** The mutex is held exactly when one thread is between [Lock] and
    [Unlock]. *)
Definition mutex_inv (st : state) : Prop :=
  count_pc holds_lock (threads st) = if locked st then 1 else 0.

(** As many [Connect] calls were made as threads are past the [Connect]
    statement. *)
Definition connect_inv (st : state) : Prop :=
  count is_connect (trace st) = count_pc has_connected (threads st).

(** A thread that runs [DBConnection] for [name] on a store whose entry
    for [name] is [entry], and that has not failed. *)
Definition acquiring (name : string) (entry : StorageEntry) (t : call * pc) : Prop :=
  fst t = CallDBConnection name /\
  match snd t with
  | pcDecode e => e = entry
  | pcClose | pcClear => False
  | pcUnlock r | pcExit r | pcDone r => exists db, r = Some (db, None)
  | _ => True
  end.

(** The program points of each method. *)
Definition fits (c : call) (p : pc) : bool :=
  match c, p with
  | CallDBConnection _, (pcClose | pcClear) => false
  | CallResetDB _, (pcGet | pcDecode _ | pcConnect _ | pcFetch) => false
  | _, _ => true
  end.



(** Past the assignment [b.dbs[name] = nil]. *)
Definition has_cleared (p : pc) : bool :=
  match p with
  | pcUnlock _ | pcExit _ | pcDone _ => true
  | _ => false
  end.

(** Against the map [b] the threads started from: every entry is as it
    was or nil. *)
Definition only_removed (b : backend) (st : state) : Prop :=
  forall name, dbs_at (shared st) name = dbs_at b name \/ dbs_at (shared st) name = NilDB.

(** Every [Close] so far was on the handle [b] held for a name, a handle
    that was not nil, each name at most once; and the name now holds nil
    or its thread stands before the assignment of nil. *)
Definition closes_accounted (b : backend) (st : state) : Prop :=
  exists names,
    closed (trace st) = map (dbs_at b) names /\
    NoDup names /\
    forall n, n ∈ names ->
      dbs_at b n <> NilDB /\
      (dbs_at (shared st) n = NilDB \/
       exists i, threads st !! i = Some (CallResetDB n, pcClear)).

(** A thread past the assignment in [ResetDB] finds nil under its name. *)
Definition resets_hold (st : state) : Prop :=
  forall i n p,
    threads st !! i = Some (CallResetDB n, p) -> has_cleared p = true ->
    dbs_at (shared st) n = NilDB.

End WithCollaborators.
End Concurrent.

(** ** Stand-ins for the collaborators

    Small executable codecs and connectors, used to run the handlers on
    concrete stores.  A stored connection entry reads [tag|payload]; a
    postgres payload starts with [host=], a mysql payload with [dsn=]; a
    lease entry is two bytes, the two durations. *)

Module Fixtures.
Import Logical.

Fixpoint split_bar (s : string) : option (string * string) :=
  match s with
  | EmptyString => None
  | String c rest =>
      if Ascii.eqb c "|"%char then Some (EmptyString, rest)
      else match split_bar rest with
           | Some (a, b) => Some (String c a, b)
           | None => None
           end
  end.

Definition decode_envelope (e : StorageEntry) : error + Database.configDB :=
  match split_bar (string_of_list_byte (Value e)) with
  | None => inl (Errorf "invalid character looking for beginning of value")
  | Some (tag, payload) => inr (Database.mkConfigDB tag (bytes_of payload))
  end.

Definition decode_with_prefix (p : string) (data : bytes) : error + string :=
  if String.prefix p (string_of_list_byte data)
  then inr (string_of_list_byte data)
  else inl (Errorf "json: cannot unmarshal").

Definition decode_lease (e : StorageEntry) : error + Database.configLease :=
  match Value e with
  | [d; m] => inr (Database.mkConfigLease (Z.of_N (Byte.to_N d)) (Z.of_N (Byte.to_N m)))
  | _ => inl (Errorf "unexpected end of JSON input")
  end.

#[global] Instance db_collaborators : Database.Collaborators := {
  Database.configPostgres := string;
  Database.configMySQL := string;
  Database.DecodeJSON_configDB := decode_envelope;
  Database.DecodeJSON_configLease := decode_lease;
  Database.Unmarshal_configPostgres := decode_with_prefix "host=";
  Database.Unmarshal_configMySQL := decode_with_prefix "dsn="
}.

(** A connector that always succeeds, and one that never does. *)
Definition connect_ok (db : Database.sqlDB_ptr) (c : Database.dbConfig) : option error := None.
Definition connect_refused (db : Database.sqlDB_ptr) (c : Database.dbConfig) : option error :=
  Some (Errorf "dial tcp: connection refused").

(** A store with one postgres connection configured under [dbs/db1]. *)
Definition store_db1 : InmemStorage :=
  {[ "dbs/db1" := bytes_of "postgres|host=pg1" ]}.

(** An okta [ConfigEntry] is stored as five fields, one per line; the
    durations are kept in whole seconds. *)
Fixpoint lines (acc : string) (s : string) : list string :=
  match s with
  | EmptyString => [acc]
  | String c rest =>
      if Ascii.eqb c ";"%char then acc :: lines EmptyString rest
      else lines (acc +:+ String c EmptyString) rest
  end.

Fixpoint digits (fuel : nat) (n : N) (acc : string) : string :=
  match fuel with
  | O => acc
  | Datatypes.S fuel' =>
      let acc' := String (Ascii.ascii_of_N (48 + n mod 10)) acc in
      if (n / 10 =? 0)%N then acc' else digits fuel' (n / 10) acc'
  end.

Definition show (z : Z) : string := digits 20 (Z.to_N z) EmptyString.

Fixpoint read_digits (s : string) (acc : N) : option N :=
  match s with
  | EmptyString => Some acc
  | String c rest =>
      let d := Ascii.N_of_ascii c in
      if ((48 <=? d) && (d <=? 57))%N then read_digits rest (acc * 10 + (d - 48))
      else None
  end.

Definition read (s : string) : option Z :=
  match s with
  | EmptyString => None
  | _ => Z.of_N <$> read_digits s 0
  end.

Definition encode_config (k : string) (c : Okta.ConfigEntry) : error + StorageEntry :=
  inr (mkEntry k (bytes_of
    (Okta.Org c +:+ ";" +:+ Okta.Token c +:+ ";" +:+ Okta.BaseURL c +:+ ";"
     +:+ show (Okta.TTL c / Okta.Second) +:+ ";" +:+ show (Okta.MaxTTL c / Okta.Second)))).

Definition decode_config (e : StorageEntry) : error + Okta.ConfigEntry :=
  match lines EmptyString (string_of_list_byte (Value e)) with
  | [org; token; base; ttl; maxttl] =>
      match read ttl, read maxttl with
      | Some t, Some m =>
          inr (Okta.mkConfigEntry org token base (t * Okta.Second) (m * Okta.Second))
      | _, _ => inl (Errorf "json: cannot unmarshal string into Go value of type int")
      end
  | _ => inl (Errorf "unexpected end of JSON input")
  end.

(** [url.Parse] stand-in: a URL that starts with a colon has no scheme;
    everything else parses. *)
Definition parse_url (u : string) : option error :=
  if String.prefix ":" u then Some (Errorf ("parse " +:+ u +:+ ": missing protocol scheme"))
  else None.

#[global] Instance okta_collaborators : Okta.Collaborators := {
  Okta.DecodeJSON_ConfigEntry := decode_config;
  Okta.StorageEntryJSON := encode_config;
  Okta.url_Parse := parse_url
}.

(** A store that counts the writes it receives. *)
Record Counted := mkCounted { inner : InmemStorage; puts : nat }.

#[global] Instance CountedStore : Storage Counted := {
  Get c k := Get (inner c) k;
  Put c e := (None, mkCounted (snd (Put (inner c) e)) (Datatypes.S (puts c)))
}.

(** Request fields from a list of the fields present; every default is
    the zero value of the field's type. *)
Definition fields (raw : list (string * Framework.value)) : Framework.FieldData :=
  Framework.mkFieldData
    (fun k => snd <$> List.find (fun kv => String.eqb (fst kv) k) raw)
    (fun k =>
       match List.find (fun kv => String.eqb (fst kv) k) raw with
       | Some kv => snd kv
       | None =>
           if String.eqb k "ttl" || String.eqb k "max_ttl"
           then Framework.VInt 0 else Framework.VString EmptyString
       end).

Definition stored_config : Okta.ConfigEntry :=
  Okta.mkConfigEntry "dev-1" "s3cr3t" "oktapreview.com" (60 * Okta.Second) (120 * Okta.Second).

Definition store_okta : InmemStorage :=
  {[ "config" := bytes_of "dev-1;s3cr3t;oktapreview.com;60;120" ]}.

(** A backend that holds one handle, under [db1]. *)
Definition backend_db1 : Database.backend :=
  Database.mkBackend {[ "db1" := Database.DBAt 7 ]}.

(** Three threads: one asks for the connection of [db1], two reset it.
    The two resets run first, one after the other, then the first
    thread. *)
Definition race_calls : list Concurrent.call :=
  [Concurrent.CallDBConnection "db1"; Concurrent.CallResetDB "db1";
   Concurrent.CallResetDB "db1"].

Definition race_schedule : list nat :=
  [1; 2; 0; 1; 1; 1; 1; 2; 1; 2; 2; 2; 2; 0; 0; 0; 0; 0; 0; 0].

(** [okta.NewClient] stand-in: the public endpoint, no token. *)
Definition new_client (org : string) : Okta.Client :=
  Okta.mkClient org "okta.com" EmptyString.

End Fixtures.

(** * The connection registry, one call at a time *)

Import Logical Database.

Section RegistryFacts.
Context `{Collaborators} (Connect : sqlDB_ptr -> dbConfig -> option error).
Context {Sto : Type} `{Storage Sto}.

Lemma count_app (P : event -> bool) (tr1 tr2 : list event) :
  count P (tr1 ++ tr2) = count P tr1 + count P tr2.
Proof. unfold count. by rewrite List.filter_app, length_app. Qed.

Lemma closed_app (tr1 tr2 : list event) : closed (tr1 ++ tr2) = closed tr1 ++ closed tr2.
Proof. unfold closed. apply omap_app. Qed.

Lemma connected_app (tr1 tr2 : list event) :
  connected (tr1 ++ tr2) = connected tr1 ++ connected tr2.
Proof. unfold connected. apply omap_app. Qed.

(** Unfolds a call of [DBConnection] and splits on each answer of a
    collaborator. *)
Ltac run_DBConnection :=
  unfold DBConnection, defer, bind, emit, ret, get_backend; cbn beta iota;
  repeat match goal with
    | |- context [Get ?s ?k] => destruct (Get s k) as [?|[?|]] eqn:?
    | |- context [DecodeJSON_configDB ?e] => destruct (DecodeJSON_configDB e) eqn:?
    | |- context [String.eqb ?a ?b] => destruct (String.eqb a b) eqn:?
    | |- context [Unmarshal_configPostgres ?d] => destruct (Unmarshal_configPostgres d) eqn:?
    | |- context [Unmarshal_configMySQL ?d] => destruct (Unmarshal_configMySQL d) eqn:?
    end; cbn beta iota.

(** The map of handles is the same after the call as before it. *)
Lemma DBConnection_keeps_backend (s : Sto) (name : string) (b : backend) (tr : list event) :
  (DBConnection Connect s name (b, tr)).2.1 = b.
Proof. run_DBConnection; reflexivity. Qed.

(** The handle handed back is nil or the one the map holds for the name. *)
Lemma DBConnection_hands_back_stored (s : Sto) (name : string) (b : backend) (tr : list event) :
  let r := (DBConnection Connect s name (b, tr)).1 in
  (r.2 = None -> r.1 = dbs_at b name) /\ (r.2 <> None -> r.1 = NilDB).
Proof. run_DBConnection; simpl; split; congruence. Qed.

(** The answer of [Connect] has no bearing on the call. *)
Lemma DBConnection_any_connector (Connect' : sqlDB_ptr -> dbConfig -> option error)
    (s : Sto) (name : string) (st : backend * list event) :
  DBConnection Connect s name st = DBConnection Connect' s name st.
Proof. destruct st as [b tr]. run_DBConnection; reflexivity. Qed.



(** A usable configuration: the call hands back what the map holds, with
    a nil error, after one read, one decode and one [Connect]. *)
Lemma DBConnection_usable (s : Sto) (name : string) (b : backend) (tr : list event)
    (entry : StorageEntry) (dbInfo : configDB) (cfg : dbConfig) :
  stored_envelope s name entry dbInfo ->
  typed_config dbInfo cfg ->
  DBConnection Connect s name (b, tr) =
    ((dbs_at b name, None),
     (b, tr ++ [LoggerTrace "db: enter"; StorageGet ("dbs/" +:+ name); DecodeJSON entry;
                Unmarshal (ConfigInfo dbInfo); ConnectCall (dbs_at b name) cfg;
                LoggerTrace "db: exit"])).
Proof.
  intros [Hget Hdec] [[Htag [c [Hu ->]]] | [Htag [c [Hu ->]]]];
    unfold DBConnection, defer, bind, emit, ret, get_backend;
    rewrite Hget, Hdec, Htag; cbn; rewrite Hu; cbn;
    by rewrite <- !app_assoc.
Qed.



(** What one call adds to the trace: one storage read, at most one decode,
    never a [Close], and one [Connect] exactly when the error is nil. *)
Lemma DBConnection_calls (s : Sto) (name : string) (b : backend) (tr : list event) :
  let out := DBConnection Connect s name (b, tr) in
  exists evs,
    out.2.2 = tr ++ evs /\
    count is_get evs = 1 /\
    count is_close evs = 0 /\
    (out.1.2 = None -> count is_decode evs = 1 /\ count is_connect evs = 1) /\
    (out.1.2 <> None -> count is_decode evs <= 1 /\ count is_connect evs = 0).
Proof.
  run_DBConnection; cbn; rewrite <- ?app_assoc; cbn;
    eexists; (split; [reflexivity|]); cbn; repeat split; (congruence || lia).
Qed.

(** C1: when the map holds no handle for the name, [Connect] gets the
    nil pointer, and whatever it does with it the map is the same after
    the call as before it and the call hands back nil: with a stored
    entry that decodes to a postgres or mysql configuration the answer is
    nil with a nil error.  No handle is made, stored or handed back. *)
Theorem DBConnection_never_opens_handle (s : Sto) (name : string) (b : backend)
    (tr : list event) :
  dbs_at b name = NilDB ->
  let out := DBConnection Connect s name (b, tr) in
  out.1.1 = NilDB /\
  out.2.1 = b /\
  dbs_at out.2.1 name = NilDB /\
  (forall entry dbInfo cfg,
     stored_envelope s name entry dbInfo -> typed_config dbInfo cfg ->
     out.1 = (NilDB, None) /\ connected out.2.2 = connected tr ++ [NilDB]).
Proof.
  intros Hnil out.
  assert (Hb : out.2.1 = b) by apply DBConnection_keeps_backend.
  destruct (DBConnection_hands_back_stored s name b tr) as [Hsome Hnone].
  fold out in Hsome, Hnone. cbv zeta in Hsome, Hnone.
  split; [|split; [exact Hb|split; [by rewrite Hb|]]].
  - destruct (out.1.2) eqn:He; [by apply Hnone|]. by rewrite Hsome.
  - intros entry dbInfo cfg Henv Hcfg. unfold out.
    rewrite (DBConnection_usable s name b tr entry dbInfo cfg Henv Hcfg).
    cbn [fst snd]. rewrite Hnil, connected_app. done.
Qed.

(** C2: when [Connect] answers with an error, the call still hands back
    what the map holds for the name with a nil error; the map is the
    same after the call as before it, and [Close] is called on nothing. *)
Theorem DBConnection_ignores_Connect_error (s : Sto) (name : string) (b : backend)
    (tr : list event) (entry : StorageEntry) (dbInfo : configDB) (cfg : dbConfig)
    (err : error) :
  stored_envelope s name entry dbInfo ->
  typed_config dbInfo cfg ->
  Connect (dbs_at b name) cfg = Some err ->
  let out := DBConnection Connect s name (b, tr) in
  out.1 = (dbs_at b name, None) /\
  out.2.1 = b /\
  connected out.2.2 = connected tr ++ [dbs_at b name] /\
  closed out.2.2 = closed tr.
Proof.
  intros Henv Hcfg _ out. unfold out.
  rewrite (DBConnection_usable s name b tr entry dbInfo cfg Henv Hcfg).
  cbn [fst snd]. rewrite connected_app, closed_app. cbn. by rewrite app_nil_r.
Qed.


Lemma dbs_at_insert_eq (m : gmap string sqlDB_ptr) (name : string) (db : sqlDB_ptr) :
  dbs_at (mkBackend (<[name := db]> m)) name = db.
Proof. unfold dbs_at. cbn. by rewrite lookup_insert_eq. Qed.

Lemma dbs_at_insert_ne (m : gmap string sqlDB_ptr) (name other : string) (db : sqlDB_ptr) :
  other <> name -> dbs_at (mkBackend (<[name := db]> m)) other = dbs_at (mkBackend m) other.
Proof. intros Hne. unfold dbs_at. cbn. by rewrite lookup_insert_ne. Qed.

(** [ResetDB] written out: the map after it, and the calls it makes. *)
Lemma ResetDB_unfolded (name : string) (b : backend) (tr : list event) :
  ResetDB name (b, tr) =
    (tt, (mkBackend (<[name := NilDB]> (dbs b)),
          tr ++ [LoggerTrace "db/resetdb: enter"]
             ++ match dbs_at b name with NilDB => [] | db => [CloseCall db] end
             ++ [LoggerTrace "db/resetdb: exit"])).
Proof.
  unfold ResetDB, defer, bind, emit, ret, get_backend, put_backend. cbn.
  destruct (decide (dbs_at b name <> NilDB)) as [Hne|Heq].
  - destruct (dbs_at b name); [done|]. cbn. by rewrite <- !app_assoc.
  - destruct (dbs_at b name); [|by destruct Heq]. cbn. by rewrite <- !app_assoc.
Qed.

(** C6: [ResetDB] calls [Close] on the handle the map holds for the name,
    once, and on nothing when that is nil; afterwards the map holds nil
    for the name and what it held for other names; a second [ResetDB] in
    a row leaves the map as the first left it and calls [Close] on
    nothing. *)
Theorem ResetDB_closes_once (name : string) (b : backend) (tr : list event) :
  let first := ResetDB name (b, tr) in
  let second := ResetDB name first.2 in
  dbs_at first.2.1 name = NilDB /\
  closed first.2.2 = closed tr ++ match dbs_at b name with NilDB => [] | db => [db] end /\
  (forall other, other <> name -> dbs_at first.2.1 other = dbs_at b other) /\
  second.2.1 = first.2.1 /\
  closed second.2.2 = closed first.2.2.
Proof.
  cbv zeta. rewrite !ResetDB_unfolded. cbn [fst snd].
  rewrite ResetDB_unfolded. cbn [fst snd dbs].
  rewrite dbs_at_insert_eq, insert_insert_eq.
  repeat split.
  - rewrite !closed_app. destruct (dbs_at b name); cbn; by rewrite ?app_nil_r.
  - intros other Hne. by apply dbs_at_insert_ne.
  - rewrite !closed_app. cbn. by rewrite !app_nil_r.
Qed.

(** C7: [Lease] answers "unset" (nil, nil) exactly when no entry is
    stored under [config/lease]; it answers with the decoded
    configuration when the stored entry decodes; and its error is not nil
    exactly when the storage read or the decoding failed.  A stored
    configuration of two zeros is therefore answered as a configuration,
    not as unset. *)
Theorem Lease_unset_or_stored (s : Sto) :
  (Lease s = (None, None) <-> Get s "config/lease" = inr None) /\
  (forall entry result,
     Get s "config/lease" = inr (Some entry) ->
     DecodeJSON_configLease entry = inr result ->
     Lease s = (Some result, None)) /\
  ((Lease s).2 <> None <->
   (exists err, Get s "config/lease" = inl err) \/
   (exists entry err, Get s "config/lease" = inr (Some entry) /\
                      DecodeJSON_configLease entry = inl err)) /\
  (forall err, (Lease s).2 = Some err -> (Lease s).1 = None).
Proof.
  unfold Lease.
  destruct (Get s "config/lease") as [err|[entry|]] eqn:Hget.
  - repeat split; try done; eauto.
  - destruct (DecodeJSON_configLease entry) as [err|result] eqn:Hdec.
    + repeat split; try done; try congruence; eauto.
    + repeat split; try done; try congruence.
      intros [[err Herr] | (entry' & err & Heq & Hd)]; congruence.
  - repeat split; try done.
    intros [[err Herr] | (entry' & err & Heq & Hd)]; congruence.
Qed.

End RegistryFacts.

(** ** The registry on concrete stores *)

Section RegistryExamples.
Import Fixtures.

(** A fresh backend, one postgres entry: the whole call, written out. *)
Example DBConnection_fresh_name_trace :
  DBConnection connect_ok store_db1 "db1" (Backend, []) =
    ((NilDB, None),
     (Backend,
      [LoggerTrace "db: enter"; StorageGet "dbs/db1";
       DecodeJSON (mkEntry "dbs/db1" (bytes_of "postgres|host=pg1"));
       Unmarshal (bytes_of "host=pg1");
       ConnectCall NilDB (OfPostgres ("host=pg1" : configPostgres));
       LoggerTrace "db: exit"])).
Proof. reflexivity. Qed.

Lemma DBConnection_never_opens_handle_witness :
  let out := DBConnection connect_ok store_db1 "db1" (Backend, []) in
  dbs_at Backend "db1" = NilDB /\
  out.1 = (NilDB, None) /\
  out.2.1 = Backend /\
  connected out.2.2 = [NilDB].
Proof.
  cbv zeta. split; [reflexivity|].
  destruct (DBConnection_never_opens_handle connect_ok store_db1 "db1" Backend [] eq_refl)
    as (_ & Wb & _ & W).
  destruct (W (mkEntry "dbs/db1" (bytes_of "postgres|host=pg1"))
              (mkConfigDB "postgres" (bytes_of "host=pg1"))
              (@OfPostgres db_collaborators "host=pg1")) as (W1 & W2).
  - split; reflexivity.
  - left. split; [reflexivity|]. eexists. split; reflexivity.
  - split; [exact W1|]. split; [exact Wb|exact W2].
Defined.

Lemma DBConnection_ignores_Connect_error_witness :
  let b := mkBackend {[ "db1" := DBAt 7 ]} in
  let out := DBConnection connect_refused store_db1 "db1" (b, []) in
  connect_refused (DBAt 7) (@OfPostgres db_collaborators "host=pg1")
    = Some (Errorf "dial tcp: connection refused") /\
  out.1 = (DBAt 7, None) /\
  out.2.1 = b /\
  connected out.2.2 = [DBAt 7] /\
  closed out.2.2 = [].
Proof.
  cbv zeta. split; [reflexivity|].
  assert (Henv : stored_envelope store_db1 "db1"
                   (mkEntry "dbs/db1" (bytes_of "postgres|host=pg1"))
                   (mkConfigDB "postgres" (bytes_of "host=pg1")))
    by (split; reflexivity).
  assert (Hcfg : typed_config (mkConfigDB "postgres" (bytes_of "host=pg1"))
                   (@OfPostgres db_collaborators "host=pg1"))
    by (left; split; [reflexivity|]; eexists; split; reflexivity).
  exact (DBConnection_ignores_Connect_error connect_refused store_db1 "db1"
           (mkBackend {[ "db1" := DBAt 7 ]}) [] _ _ _
           (Errorf "dial tcp: connection refused") Henv Hcfg eq_refl).
Defined.



Lemma ResetDB_closes_once_witness :
  let first := ResetDB "db1" (mkBackend {[ "db1" := DBAt 7; "db2" := DBAt 8 ]}, []) in
  closed first.2.2 = [DBAt 7] /\
  dbs_at first.2.1 "db1" = NilDB /\
  dbs_at first.2.1 "db2" = DBAt 8 /\
  closed (ResetDB "db1" first.2).2.2 = [DBAt 7].
Proof.
  cbv zeta.
  pose proof (ResetDB_closes_once "db1" (mkBackend {[ "db1" := DBAt 7; "db2" := DBAt 8 ]}) [])
    as W.
  cbv zeta in W. destruct W as (W1 & W2 & W3 & _ & W5).
  split; [exact W2|]. split; [exact W1|]. split; [|by rewrite W5, W2].
  rewrite (W3 "db2"); [reflexivity | discriminate].
Defined.

Lemma Lease_unset_or_stored_witness :
  Lease (∅ : InmemStorage) = (None, None) /\
  Lease ({[ "config/lease" := [Byte.x00; Byte.x00] ]} : InmemStorage)
    = (Some (mkConfigLease 0 0), None) /\
  (Lease ({[ "config/lease" := [Byte.x00] ]} : InmemStorage)).2 <> None /\
  (Lease Sealed).2 <> None.
Proof.
  split; [|split; [|split]].
  - destruct (Lease_unset_or_stored (∅ : InmemStorage)) as (L & _).
    apply L. reflexivity.
  - destruct (Lease_unset_or_stored
                ({[ "config/lease" := [Byte.x00; Byte.x00] ]} : InmemStorage)) as (_ & L & _).
    eapply L; reflexivity.
  - destruct (Lease_unset_or_stored
                ({[ "config/lease" := [Byte.x00] ]} : InmemStorage)) as (_ & _ & L & _).
    apply L. right. eexists _, _. split; reflexivity.
  - destruct (Lease_unset_or_stored Sealed) as (_ & _ & L & _).
    apply L. left. eexists. reflexivity.
Defined.

End RegistryExamples.

(** * The okta configuration handlers *)

Section OktaFacts.
Import Okta.
Context `{Okta.Collaborators} {Sto : Type} `{Storage Sto}.

(** What [conforms Fields] says, field by field. *)
Lemma conforms_Fields (d : FieldData) :
  conforms Fields d = true ->
  (exists v, Framework.Get d "organization" = VString v) /\
  (exists v, Framework.Get d "token" = VString v) /\
  (exists v, Framework.Get d "base_url" = VString v) /\
  (exists n, Framework.Get d "ttl" = VInt n) /\
  (exists n, Framework.Get d "max_ttl" = VInt n) /\
  (forall x, GetOk d "organization" = Some x -> exists v, x = VString v) /\
  (forall x, GetOk d "token" = Some x -> exists v, x = VString v) /\
  (forall x, GetOk d "base_url" = Some x -> exists v, x = VString v) /\
  (forall x, GetOk d "ttl" = Some x -> exists n, x = VInt n) /\
  (forall x, GetOk d "max_ttl" = Some x -> exists n, x = VInt n).
Proof.
  unfold conforms, Fields. cbn [forallb]. intros Hc.
  repeat match goal with
    | Hx : _ && _ = true |- _ => apply andb_prop in Hx as [? ?]
    end.
  repeat match goal with
    | Hx : has_type _ (Framework.Get d ?k) = true |- _ =>
        destruct (Framework.Get d k) eqn:?; try discriminate Hx; clear Hx
    | Hx : match GetOk d ?k with _ => _ end = true |- _ =>
        destruct (GetOk d k) as [[?|?|?]|] eqn:?; try discriminate Hx; clear Hx
    end;
    repeat split; try (eexists; reflexivity);
    intros x Hx; inversion Hx; eexists; reflexivity.
Qed.


Lemma length_zero_empty (u : string) : (String.length u =? 0)%nat = true <-> u = EmptyString.
Proof. destruct u; cbn; split; congruence. Qed.

(** With well-typed fields, a readable stored record and no [base_url]
    that fails to parse, the handler stores [merge_fields] of them. *)
Lemma pathConfigWrite_stores_merge (req : Request Sto) (d : FieldData)
    (stored : option ConfigEntry) :
  Config (Storage_of req) = (stored, None) ->
  conforms Fields d = true ->
  (forall u, GetOk d "base_url" = Some (VString u) -> u <> EmptyString -> url_Parse u = None) ->
  pathConfigWrite req d =
    match StorageEntryJSON "config"
            (merge_fields (default zeroConfigEntry stored) d (Op req)) with
    | inl err => Some ((None, Some err), Storage_of req)
    | inr jsonCfg =>
        Some ((None, (Logical.Put (Storage_of req) jsonCfg).1),
              (Logical.Put (Storage_of req) jsonCfg).2)
    end.
Proof.
  intros HConfig Hconf Hurl.
  destruct (conforms_Fields d Hconf)
    as ((o & Ho) & (t & Ht) & (u & Hu) & (n & Hn) & (m & Hm) & Oo & Ot & Ou & On & Om).
  unfold pathConfigWrite, merge_fields, merge_string, merge_seconds.
  rewrite HConfig, Ho, Ht, Hu, Hn, Hm.
  change (match stored with Some c => c | None => zeroConfigEntry end)
    with (default zeroConfigEntry stored).
  destruct (default zeroConfigEntry stored) as [org0 token0 base0 ttl0 max0].
  assert (Hb : match GetOk d "base_url" with
               | Some (VString (String c bu)) => url_Parse (String c bu) = None
               | Some (VString EmptyString) => True
               | Some _ => False
               | None => True
               end).
  { destruct (GetOk d "base_url") as [x|] eqn:Eb; [|done].
    destruct (Ou x eq_refl) as [[|c bu] ->]; [done|]. by apply Hurl. }
  clear Hurl Ou.
  destruct (GetOk d "base_url") as [[[|c bu]| |]|]; try done;
  (destruct (GetOk d "organization") as [x|]; [destruct (Oo x eq_refl) as [? ->]|]);
  (destruct (GetOk d "token") as [x|]; [destruct (Ot x eq_refl) as [? ->]|]);
  (destruct (GetOk d "ttl") as [x|]; [destruct (On x eq_refl) as [? ->]|]);
  (destruct (GetOk d "max_ttl") as [x|]; [destruct (Om x eq_refl) as [? ->]|]);
  destruct (Op req); cbn;
  unfold set_Org, set_Token, set_BaseURL, set_TTL, set_MaxTTL; cbn;
  repeat case_decide; try congruence; cbn;
  try (rewrite Hb; cbn);
  repeat match goal with
    | |- context [StorageEntryJSON ?k ?c] => destruct (StorageEntryJSON k c)
    | |- context [Logical.Put ?s ?e] => destruct (Logical.Put s e) as [[?|] ?]
    end; reflexivity.
Qed.


(** C8: with well-typed fields, a readable stored record (or none) and no
    [base_url] that fails to parse, the write hands to storage the JSON of
    one merged record, and every field of that record is fixed.  A field
    the request carries takes the request's value (an empty [base_url]
    leaves the base URL of the record at hand).  On an update every field
    the request lacks keeps the value of the stored record; on a create
    every field the request lacks takes the field's default ([Get] on the
    request).  Durations are turned from seconds into a
    [time.Duration]. *)
Theorem pathConfigWrite_merge (req : Request Sto) (d : FieldData)
    (stored : option ConfigEntry) :
  Config (Storage_of req) = (stored, None) ->
  conforms Fields d = true ->
  (forall u, GetOk d "base_url" = Some (VString u) -> u <> EmptyString -> url_Parse u = None) ->
  let old := default zeroConfigEntry stored in
  exists merged,
    pathConfigWrite req d =
      match StorageEntryJSON "config" merged with
      | inl err => Some ((None, Some err), Storage_of req)
      | inr jsonCfg =>
          Some ((None, (Logical.Put (Storage_of req) jsonCfg).1),
                (Logical.Put (Storage_of req) jsonCfg).2)
      end /\
    (Op req = UpdateOperation ->
       (GetOk d "organization" = None -> Org merged = Org old) /\
       (GetOk d "token" = None -> Token merged = Token old) /\
       (GetOk d "base_url" = None -> BaseURL merged = BaseURL old) /\
       (GetOk d "ttl" = None -> TTL merged = TTL old) /\
       (GetOk d "max_ttl" = None -> MaxTTL merged = MaxTTL old)) /\
    (Op req = CreateOperation ->
       (GetOk d "organization" = None -> Framework.Get d "organization" = VString (Org merged)) /\
       (GetOk d "token" = None -> Framework.Get d "token" = VString (Token merged)) /\
       (GetOk d "base_url" = None -> Framework.Get d "base_url" = VString (BaseURL merged)) /\
       (GetOk d "ttl" = None ->
        exists n, Framework.Get d "ttl" = VInt n /\ TTL merged = seconds n) /\
       (GetOk d "max_ttl" = None ->
        exists n, Framework.Get d "max_ttl" = VInt n /\ MaxTTL merged = seconds n)) /\
    ((forall v, GetOk d "organization" = Some (VString v) -> Org merged = v) /\
     (forall v, GetOk d "token" = Some (VString v) -> Token merged = v) /\
     (forall v, GetOk d "base_url" = Some (VString v) -> v <> EmptyString ->
                BaseURL merged = v) /\
     (GetOk d "base_url" = Some (VString EmptyString) -> BaseURL merged = BaseURL old) /\
     (forall n, GetOk d "ttl" = Some (VInt n) -> TTL merged = seconds n) /\
     (forall n, GetOk d "max_ttl" = Some (VInt n) -> MaxTTL merged = seconds n)).
Proof.
  intros HConfig Hconf Hurl old.
  exists (merge_fields old d (Op req)).
  split; [by apply pathConfigWrite_stores_merge|].
  destruct (conforms_Fields d Hconf)
    as ((o & Ho) & (t & Ht) & (u & Hu) & (n & Hn) & (m & Hm) & _).
  unfold merge_fields, merge_string, merge_seconds.
  split; [|split].
  - intros ->. cbn [Org Token BaseURL TTL MaxTTL].
    repeat split; intros ->; rewrite ?Ho, ?Ht, ?Hu, ?Hn, ?Hm; eauto.
  - intros ->. cbn [Org Token BaseURL TTL MaxTTL].
    repeat split; intros ->; rewrite ?Ho, ?Ht, ?Hu, ?Hn, ?Hm; eauto.
  - cbn [Org Token BaseURL TTL MaxTTL]. repeat split.
    + by intros v ->.
    + by intros v ->.
    + intros v -> Hv. by destruct v.
    + by intros ->.
    + by intros k ->.
    + by intros k ->.
Qed.

(** C9: the answer of a read is made of the stored organization, base
    URL and the two durations, under these four keys and no other; two
    stored records that agree on these four fields, whatever their
    tokens, are answered alike. *)
Theorem pathConfigRead_hides_token (req1 req2 : Request Sto) (d1 d2 : FieldData)
    (cfg1 cfg2 : ConfigEntry) :
  Config (Storage_of req1) = (Some cfg1, None) ->
  Config (Storage_of req2) = (Some cfg2, None) ->
  Org cfg1 = Org cfg2 ->
  BaseURL cfg1 = BaseURL cfg2 ->
  TTL cfg1 = TTL cfg2 ->
  MaxTTL cfg1 = MaxTTL cfg2 ->
  pathConfigRead req1 d1 = pathConfigRead req2 d2 /\
  exists data,
    pathConfigRead req1 d1 = (Some (mkResponse data), None) /\
    dom data = ({[ "organization"; "base_url"; "ttl"; "max_ttl" ]} : gset string) /\
    data !! "token" = None /\
    data !! "organization" = Some (VString (Org cfg1)) /\
    data !! "base_url" = Some (VString (BaseURL cfg1)) /\
    data !! "ttl" = Some (VDuration (TTL cfg1)) /\
    data !! "max_ttl" = Some (VDuration (MaxTTL cfg1)).
Proof.
  intros H1 H2 Eo Eb Et Em. unfold pathConfigRead. rewrite H1, H2.
  split; [by rewrite Eo, Eb, Et, Em|].
  eexists. split; [reflexivity|].
  split; [rewrite !dom_insert_L, dom_empty_L; set_solver|].
  repeat split; by simplify_map_eq.
Qed.

(** C10: when the request carries a [base_url] that does not parse, the
    write returns with the storage it was given, whatever store that is:
    nothing is put.  With a readable stored record (or none) the answer
    is the error response about the URL; with a failed read it is the
    read's error. *)
Theorem pathConfigWrite_bad_base_url (req : Request Sto) (d : FieldData)
    (u : string) (err : error) :
  conforms Fields d = true ->
  GetOk d "base_url" = Some (VString u) ->
  u <> EmptyString ->
  url_Parse u = Some err ->
  (exists r, pathConfigWrite req d = Some (r, Storage_of req) /\ r <> (None, None)) /\
  (forall stored,
     Config (Storage_of req) = (stored, None) ->
     pathConfigWrite req d =
       Some ((Some (ErrorResponse ("Error parsing given base_url: " +:+ Error err)), None),
             Storage_of req)).
Proof.
  intros Hconf Hb Hu Hparse.
  destruct (conforms_Fields d Hconf)
    as ((o & Ho) & (t & Ht) & _ & _ & _ & Oo & Ot & _).
  assert (Hlen : (String.length u =? 0)%nat = false).
  { destruct (String.length u =? 0)%nat eqn:E; [|done]. by apply length_zero_empty in E. }
  assert (Hread : forall stored,
     Config (Storage_of req) = (stored, None) ->
     pathConfigWrite req d =
       Some ((Some (ErrorResponse ("Error parsing given base_url: " +:+ Error err)), None),
             Storage_of req)).
  { intros stored HConfig. unfold pathConfigWrite.
    rewrite HConfig, Hb, Ho, Ht.
    destruct (GetOk d "organization") as [x|]; [destruct (Oo x eq_refl) as [? ->]|];
    (destruct (GetOk d "token") as [x|]; [destruct (Ot x eq_refl) as [? ->]|]);
    destruct (decide (Op req = CreateOperation)); cbn; by rewrite Hlen, Hparse. }
  split; [|exact Hread].
  destruct (Config (Storage_of req)) as [stored [e|]] eqn:HConfig.
  - exists (None, Some e). split; [|done]. unfold pathConfigWrite. by rewrite HConfig.
  - eexists. split; [by apply (Hread stored)|done].
Qed.

End OktaFacts.

(** ** The handlers on concrete stores *)

Section OktaExamples.
Import Okta Fixtures.

Lemma pathConfigWrite_merge_witness :
  let req := mkRequest UpdateOperation store_okta in
  let d := fields [("organization", VString "acme"); ("ttl", VInt 5)] in
  exists merged,
    merged = mkConfigEntry "acme" "s3cr3t" "oktapreview.com" (seconds 5) (120 * Second) /\
    pathConfigWrite req d =
      Some ((None, None),
            ({[ "config" := bytes_of "acme;s3cr3t;oktapreview.com;5;120" ]} : InmemStorage)).
Proof.
  cbv zeta.
  destruct (@pathConfigWrite_merge okta_collaborators InmemStorage Inmem
              (mkRequest UpdateOperation store_okta)
              (fields [("organization", VString "acme"); ("ttl", VInt 5)])
              (Some stored_config) eq_refl eq_refl)
    as (merged & Hw & Hupd & _ & Hgiven).
  { intros u Hu. discriminate Hu. }
  destruct (Hupd eq_refl) as (_ & Htoken & Hbase & _ & Hmax).
  destruct Hgiven as (Horg & _ & _ & _ & Httl & _).
  specialize (Horg "acme" eq_refl). specialize (Httl 5%Z eq_refl).
  specialize (Htoken eq_refl). specialize (Hbase eq_refl). specialize (Hmax eq_refl).
  assert (Hm : merged =
               mkConfigEntry "acme" "s3cr3t" "oktapreview.com" (seconds 5) (120 * Second)).
  { destruct merged as [o t b ttl mx]. cbn in Horg, Htoken, Hbase, Httl, Hmax.
    by rewrite Horg, Htoken, Hbase, Httl, Hmax. }
  exists merged. split; [exact Hm|].
  rewrite Hw, Hm. by vm_compute.
Defined.

Lemma pathConfigRead_hides_token_witness :
  pathConfigRead (mkRequest ReadOperation store_okta) (fields []) =
  pathConfigRead
    (mkRequest ReadOperation
       ({[ "config" := bytes_of "dev-1;another-token;oktapreview.com;60;120" ]} : InmemStorage))
    (fields []).
Proof.
  eapply (@pathConfigRead_hides_token okta_collaborators InmemStorage Inmem
            (mkRequest ReadOperation store_okta)
            (mkRequest ReadOperation
               ({[ "config" := bytes_of "dev-1;another-token;oktapreview.com;60;120" ]}
                  : InmemStorage)));
    reflexivity.
Defined.

Lemma pathConfigWrite_bad_base_url_witness :
  let s := mkCounted store_okta 0 in
  pathConfigWrite (mkRequest UpdateOperation s)
                  (fields [("token", VString "new-token"); ("base_url", VString ":bad")])
  = Some ((Some (ErrorResponse
                   "Error parsing given base_url: parse :bad: missing protocol scheme"),
           None), s).
Proof.
  cbv zeta.
  destruct (@pathConfigWrite_bad_base_url okta_collaborators Counted CountedStore
              (mkRequest UpdateOperation (mkCounted store_okta 0))
              (fields [("token", VString "new-token"); ("base_url", VString ":bad")])
              ":bad" (Errorf "parse :bad: missing protocol scheme")
              eq_refl eq_refl)
    as (_ & W); [discriminate | reflexivity |].
  exact (W (Some stored_config) eq_refl).
Defined.

End OktaExamples.

(** * Threads and the lock *)

Section ConcurrentFacts.
Import Concurrent.
Context `{Database.Collaborators} {Sto : Type} `{Storage Sto}.
Variable s : Sto.

Lemma count_pc_cons (P : pc -> bool) (t : call * pc) (ts : list (call * pc)) :
  count_pc P (t :: ts) = Nat.b2n (P t.2) + count_pc P ts.
Proof. unfold count_pc. simpl. by destruct (P t.2). Qed.

Lemma count_pc_insert (P : pc -> bool) (ts : list (call * pc)) (i : nat)
    (c : call) (p p' : pc) :
  ts !! i = Some (c, p) ->
  count_pc P (<[i := (c, p')]> ts) + Nat.b2n (P p) = count_pc P ts + Nat.b2n (P p').
Proof.
  revert i. induction ts as [|t ts IH]; intros [|i] Hi; try done.
  - injection Hi as ->. simpl. rewrite !count_pc_cons. simpl. lia.
  - simpl in Hi. specialize (IH i Hi). simpl. rewrite !count_pc_cons. lia.
Qed.

Lemma count_pc_one (P : pc -> bool) (ts : list (call * pc)) (i : nat) (t : call * pc) :
  ts !! i = Some t -> P t.2 = true -> 1 <= count_pc P ts.
Proof.
  revert i. induction ts as [|t' ts IH]; intros [|i] Hi Ht; try done.
  - injection Hi as ->. rewrite count_pc_cons, Ht. simpl. lia.
  - simpl in Hi. specialize (IH i Hi Ht). rewrite count_pc_cons. lia.
Qed.

Lemma count_pc_two (P : pc -> bool) (ts : list (call * pc)) (i j : nat)
    (ti tj : call * pc) :
  i <> j -> ts !! i = Some ti -> ts !! j = Some tj ->
  P ti.2 = true -> P tj.2 = true -> 2 <= count_pc P ts.
Proof.
  revert i j. induction ts as [|t ts IH]; intros [|i] [|j] Hne Hi Hj Pi Pj; try done.
  - injection Hi as ->. simpl in Hj. pose proof (count_pc_one P ts j tj Hj Pj).
    rewrite count_pc_cons, Pi. simpl. lia.
  - injection Hj as ->. simpl in Hi. pose proof (count_pc_one P ts i ti Hi Pi).
    rewrite count_pc_cons, Pj. simpl. lia.
  - simpl in Hi, Hj. assert (Hij : i <> j) by lia. specialize (IH i j Hij Hi Hj Pi Pj).
    rewrite count_pc_cons. lia.
Qed.

(** How one step of a thread stands to the mutex: it stays outside, it
    takes the free mutex, it stays inside, or it releases. *)
Lemma step_thread_lock (c : call) (p p' : pc) (l l' : bool) (b b' : backend)
    (evs : list event) :
  step_thread s c p l b = Some (p', l', b', evs) ->
  (holds_lock p = false /\ holds_lock p' = false /\ l' = l /\ b' = b) \/
  (holds_lock p = false /\ l = false /\ holds_lock p' = true /\ l' = true /\ b' = b) \/
  (holds_lock p = true /\ holds_lock p' = true /\ l' = l) \/
  (holds_lock p = true /\ holds_lock p' = false /\ l' = false /\ b' = b).
Proof.
  destruct c, p; cbn; intros Hs; repeat case_match; simplify_eq; cbn; tauto.
Qed.

(** A step that calls [Connect] moves its thread past the [Connect]
    statement, and no other step does. *)
Lemma step_thread_connect (c : call) (p p' : pc) (l l' : bool) (b b' : backend)
    (evs : list event) :
  step_thread s c p l b = Some (p', l', b', evs) ->
  count is_connect evs + Nat.b2n (has_connected p) = Nat.b2n (has_connected p').
Proof.
  destruct c, p; cbn; intros Hs; repeat case_match; simplify_eq; cbn; reflexivity.
Qed.

Lemma step_mutex_inv (i : nat) (st st' : state) :
  step s i st = Some st' -> mutex_inv st -> mutex_inv st'.
Proof.
  unfold step, mutex_inv.
  destruct (threads st !! i) as [[c p]|] eqn:Hi; [|done].
  destruct (step_thread s c p (locked st) (shared st)) as [[[[p' l'] b'] evs]|] eqn:Hs; [|done].
  intros [= <-] Hinv. cbn [locked threads].
  pose proof (count_pc_insert holds_lock _ _ _ _ p' Hi) as Hc.
  pose proof (count_pc_one holds_lock _ _ _ Hi) as Hone. cbn [snd] in Hone.
  destruct (step_thread_lock _ _ _ _ _ _ _ _ Hs)
    as [(Hp & Hp' & -> & _) | [(Hp & Hl & Hp' & -> & _) | [(Hp & Hp' & ->) | (Hp & Hp' & -> & _)]]];
    rewrite Hp, Hp' in Hc; cbn [Nat.b2n] in Hc.
  - lia.
  - rewrite Hl in Hinv. lia.
  - lia.
  - specialize (Hone Hp). destruct (locked st); lia.
Qed.

Lemma step_connect_inv (i : nat) (st st' : state) :
  step s i st = Some st' -> connect_inv st -> connect_inv st'.
Proof.
  unfold step, connect_inv.
  destruct (threads st !! i) as [[c p]|] eqn:Hi; [|done].
  destruct (step_thread s c p (locked st) (shared st)) as [[[[p' l'] b'] evs]|] eqn:Hs; [|done].
  intros [= <-] Hinv. cbn [trace threads].
  pose proof (count_pc_insert has_connected _ _ _ _ p' Hi) as Hc.
  pose proof (step_thread_connect _ _ _ _ _ _ _ _ Hs) as He.
  rewrite count_app. lia.
Qed.

(** What every step keeps, every run keeps. *)
Lemma run_keeps (I : state -> Prop) :
  (forall i st st', step s i st = Some st' -> I st -> I st') ->
  forall schedule st st', run s schedule st = Some st' -> I st -> I st'.
Proof.
  intros Hstep schedule. induction schedule as [|i rest IH]; intros st st' Hrun Hst.
  - by injection Hrun as <-.
  - cbn in Hrun. destruct (step s i st) as [st1|] eqn:H1; [|done]. eauto.
Qed.


(** Only a thread between [Lock] and [Unlock] changes the map. *)
Lemma step_writes_inside (i : nat) (st st' : state) :
  step s i st = Some st' ->
  shared st' <> shared st ->
  exists t, threads st !! i = Some t /\ holds_lock t.2 = true.
Proof.
  unfold step.
  destruct (threads st !! i) as [[c p]|] eqn:Hi; [|done].
  destruct (step_thread s c p (locked st) (shared st)) as [[[[p' l'] b'] evs]|] eqn:Hs; [|done].
  intros [= <-] Hne. cbn [shared] in Hne. exists (c, p). split; [done|].
  destruct (step_thread_lock _ _ _ _ _ _ _ _ Hs)
    as [(_ & _ & _ & Hb) | [(_ & _ & _ & _ & Hb) | [(Hp & _) | (Hp & _)]]]; done.
Qed.

Lemma step_length (i : nat) (st st' : state) :
  step s i st = Some st' -> length (threads st') = length (threads st).
Proof.
  unfold step.
  destruct (threads st !! i) as [[c p]|]; [|done].
  destruct (step_thread s c p (locked st) (shared st)) as [[[[p' l'] b'] evs]|]; [|done].
  intros [= <-]. cbn [threads]. apply length_insert.
Qed.

Section UsableConfiguration.
Variables (name : string) (entry : StorageEntry) (dbInfo : configDB) (cfg : dbConfig).
Hypothesis Henv : stored_envelope s name entry dbInfo.
Hypothesis Hcfg : typed_config dbInfo cfg.

Lemma step_thread_acquiring (c : call) (p p' : pc) (l l' : bool) (b b' : backend)
    (evs : list event) :
  step_thread s c p l b = Some (p', l', b', evs) ->
  acquiring name entry (c, p) -> acquiring name entry (c, p').
Proof.
  destruct Henv as [Hget Hdec].
  intros Hs [Hc Hp]. cbn in Hc, Hp. subst c. split; [done|]. cbn [snd].
  destruct p; cbn in Hs; try done.
  - by injection Hs as <- _ _ _.
  - destruct l; [done|]. by injection Hs as <- _ _ _.
  - rewrite Hget in Hs. by injection Hs as <- _ _ _.
  - subst entry0. rewrite Hdec in Hs.
    destruct Hcfg as [(Htag & config & Hu & _) | (Htag & config & Hu & _)];
      rewrite Htag in Hs; cbn in Hs; rewrite Hu in Hs; by injection Hs as <- _ _ _.
  - by injection Hs as <- _ _ _.
  - injection Hs as <- _ _ _. eauto.
  - by injection Hs as <- _ _ _.
  - by injection Hs as <- _ _ _.
Qed.

Lemma step_acquiring (i : nat) (st st' : state) :
  step s i st = Some st' ->
  Forall (acquiring name entry) (threads st) -> Forall (acquiring name entry) (threads st').
Proof.
  unfold step.
  destruct (threads st !! i) as [[c p]|] eqn:Hi; [|done].
  destruct (step_thread s c p (locked st) (shared st)) as [[[[p' l'] b'] evs]|] eqn:Hs; [|done].
  intros [= <-] Hall. cbn [threads]. apply Forall_insert; [done|].
  eapply step_thread_acquiring; [exact Hs|]. by eapply Forall_lookup_1.
Qed.

Lemma acquiring_done_connected (ts : list (call * pc)) :
  Forall (acquiring name entry) ts ->
  forallb (fun t => is_done t.2) ts = true ->
  count_pc has_connected ts = length ts.
Proof.
  induction 1 as [|[c p] ts [_ Hp] _ IH]; [done|].
  cbn [forallb snd]. intros [Hd Hrest]%andb_prop.
  rewrite count_pc_cons, (IH Hrest). cbn [snd length] in *.
  destruct p; try done. destruct Hp as [db ->]. done.
Qed.

End UsableConfiguration.

(** C5: both method bodies run between [Lock] and the deferred [Unlock]
    of the one mutex, so in every state threads can
    reach, the mutex is held exactly when one thread is inside a body, no
    two threads are inside at once, and a step that changes the map is
    the step of the thread inside.  Every call of [DBConnection] that is
    past its [Connect] statement has called [Connect] once: when every
    thread calls [DBConnection] for one name whose stored entry decodes to
    a postgres or mysql configuration, and all have returned, [Connect]
    was called once per thread. *)
Theorem lock_serializes_and_each_call_connects (calls : list call) (b : backend)
    (schedule : list nat) (st : state) :
  run s schedule (init calls b) = Some st ->
  mutex_inv st /\
  (forall i j ti tj,
     threads st !! i = Some ti -> threads st !! j = Some tj ->
     holds_lock ti.2 = true -> holds_lock tj.2 = true -> i = j) /\
  (forall i st',
     step s i st = Some st' -> shared st' <> shared st ->
     exists t, threads st !! i = Some t /\ holds_lock t.2 = true) /\
  count is_connect (trace st) = count_pc has_connected (threads st) /\
  (forall name entry dbInfo cfg,
     stored_envelope s name entry dbInfo ->
     typed_config dbInfo cfg ->
     Forall (fun c => c = CallDBConnection name) calls ->
     all_done st = true ->
     count is_connect (trace st) = length calls).
Proof.
  intros Hrun.
  assert (Hzero : forall P, P pcEnter = false -> count_pc P (threads (init calls b)) = 0).
  { clear Hrun. intros P HP. cbn [init threads]. induction calls as [|c cs IH]; [done|].
    cbn [map]. rewrite count_pc_cons, IH. cbn [snd]. by rewrite HP. }
  assert (Hmutex : mutex_inv st).
  { apply (run_keeps mutex_inv step_mutex_inv _ _ _ Hrun).
    unfold mutex_inv. by rewrite Hzero. }
  assert (Hconnect : connect_inv st).
  { apply (run_keeps connect_inv step_connect_inv _ _ _ Hrun).
    unfold connect_inv. by rewrite Hzero. }
  split; [exact Hmutex|]. split; [|split; [|split; [exact Hconnect|]]].
  - intros i j ti tj Hi Hj Pi Pj.
    destruct (decide (i = j)) as [|Hne]; [done|].
    pose proof (count_pc_two holds_lock _ _ _ _ _ Hne Hi Hj Pi Pj) as Htwo.
    unfold mutex_inv in Hmutex. destruct (locked st); lia.
  - intros i st'. apply step_writes_inside.
  - intros name entry dbInfo cfg Henv Hcfg Hcalls Hdone.
    assert (Hacq : Forall (acquiring name entry) (threads st)).
    { apply (run_keeps _ (fun i st0 st1 => step_acquiring name entry dbInfo cfg Henv Hcfg i st0 st1)
               _ _ _ Hrun).
      cbn [init threads]. clear -Hcalls.
      induction Hcalls as [|c cs -> _ IH]; constructor; [by split|done]. }
    assert (Hlen : length (threads st) = length calls).
    { rewrite (run_keeps (fun st0 => length (threads st0) = length calls)
                 (fun i st0 st1 Hs Hl => eq_trans (step_length i st0 st1 Hs) Hl)
                 _ _ _ Hrun); [done|].
      cbn [init threads]. apply length_map. }
    rewrite Hconnect, <- Hlen.
    by apply (acquiring_done_connected name entry).
Qed.


(** One thread alone: its steps add up to the method as written above,
    whatever the connector answers. *)
Lemma alone_DBConnection (Connect : sqlDB_ptr -> dbConfig -> option error)
    (name : string) (b : backend) :
  let out := DBConnection Connect s name (b, []) in
  exists n,
    run s (replicate n 0) (init [CallDBConnection name] b) =
      Some (mkState false out.2.1 out.2.2 [(CallDBConnection name, pcDone (Some out.1))]).
Proof.
  cbv zeta. unfold DBConnection, defer, bind, emit, ret, get_backend.
  destruct (Get s ("dbs/" +:+ name)) as [err|[entry|]] eqn:Hget.
  - exists 5. cbn. rewrite Hget. reflexivity.
  - destruct (DecodeJSON_configDB entry) as [err|dbInfo] eqn:Hdec.
    + exists 6. cbn. rewrite Hget. cbn. rewrite Hdec. reflexivity.
    + destruct (String.eqb (DatabaseType dbInfo) "postgres") eqn:Hpg;
        [|destruct (String.eqb (DatabaseType dbInfo) "mysql") eqn:Hmy].
      * destruct (Unmarshal_configPostgres (ConfigInfo dbInfo)) eqn:Hu;
          [exists 6 | exists 8]; cbn; rewrite Hget; cbn; rewrite Hdec, Hpg, Hu; reflexivity.
      * destruct (Unmarshal_configMySQL (ConfigInfo dbInfo)) eqn:Hu;
          [exists 6 | exists 8]; cbn; rewrite Hget; cbn; rewrite Hdec, Hpg, Hmy, Hu;
          reflexivity.
      * exists 6. cbn. rewrite Hget. cbn. rewrite Hdec, Hpg, Hmy. reflexivity.
  - exists 5. cbn. rewrite Hget. reflexivity.
Qed.

Lemma alone_ResetDB (name : string) (b : backend) :
  let out := ResetDB name (b, []) in
  run s (replicate 6 0) (init [CallResetDB name] b) =
    Some (mkState false out.2.1 out.2.2 [(CallResetDB name, pcDone None)]).
Proof.
  cbv zeta. rewrite ResetDB_unfolded. cbn.
  destruct (decide (dbs_at b name <> NilDB)) as [Hne|Heq].
  - by destruct (dbs_at b name).
  - destruct (dbs_at b name); [done|]. by destruct Heq.
Qed.

End ConcurrentFacts.

(** ** Two threads on a concrete store *)

Section ConcurrentExamples.
Import Concurrent Fixtures.

(** Two threads call [DBConnection] for the same name, which has no
    handle yet.  They run one after the other under the lock, and
    [Connect] is called twice, each time with the nil pointer: the map is
    as empty after the first call as before it, and both calls hand back
    nil with a nil error. *)
Example two_acquires_connect_twice :
  let schedule := [0; 1; 0; 0; 0; 0; 0; 0; 1; 0; 1; 1; 1; 1; 1; 1] in
  let calls := [CallDBConnection "db1"; CallDBConnection "db1"] in
  (fun st => (all_done st, connected (trace st), shared st, map snd (threads st)))
    <$> run store_db1 schedule (init calls Backend)
  = Some (true, [NilDB; NilDB], Backend,
          [pcDone (Some (NilDB, None)); pcDone (Some (NilDB, None))]).
Proof. by vm_compute. Qed.

Lemma lock_serializes_and_each_call_connects_witness :
  let schedule := [0; 1; 0; 0; 0; 0; 0; 0; 1; 0; 1; 1; 1; 1; 1; 1] in
  let calls := [CallDBConnection "db1"; CallDBConnection "db1"] in
  match run store_db1 schedule (init calls Backend) with
  | Some st => all_done st = true /\ mutex_inv st /\ count is_connect (trace st) = 2
  | None => False
  end.
Proof.
  cbv zeta.
  pose proof (lock_serializes_and_each_call_connects store_db1
                [CallDBConnection "db1"; CallDBConnection "db1"] Backend
                [0; 1; 0; 0; 0; 0; 0; 0; 1; 0; 1; 1; 1; 1; 1; 1]) as W.
  assert (Hdone : all_done <$>
                    run store_db1 [0; 1; 0; 0; 0; 0; 0; 0; 1; 0; 1; 1; 1; 1; 1; 1]
                      (init [CallDBConnection "db1"; CallDBConnection "db1"] Backend)
                  = Some true) by (by vm_compute).
  destruct (run store_db1 [0; 1; 0; 0; 0; 0; 0; 0; 1; 0; 1; 1; 1; 1; 1; 1]
              (init [CallDBConnection "db1"; CallDBConnection "db1"] Backend))
    as [st|]; [|discriminate Hdone].
  injection Hdone as Hdone.
  destruct (W st eq_refl) as (Wm & _ & _ & _ & Wc).
  split; [exact Hdone|]. split; [exact Wm|].
  apply (Wc "db1" (mkEntry "dbs/db1" (bytes_of "postgres|host=pg1"))
            (mkConfigDB "postgres" (bytes_of "host=pg1"))
            (@OfPostgres db_collaborators "host=pg1")).
  - split; reflexivity.
  - left. split; [reflexivity|]. eexists. split; reflexivity.
  - repeat constructor.
  - exact Hdone.
Defined.

End ConcurrentExamples.

(** * How the registry's calls compose *)

Section RegistryCompositions.
Context `{Database.Collaborators} (Connect : sqlDB_ptr -> dbConfig -> option error).
Context {Sto : Type} `{Storage Sto}.

(** The answer of [DBConnection] is a matter of the store and of what the
    map holds for the name, and of nothing else. *)
Lemma DBConnection_answer (s : Sto) (name : string) (b b' : backend)
    (tr tr' : list event) :
  dbs_at b name = dbs_at b' name ->
  (DBConnection Connect s name (b, tr)).1 = (DBConnection Connect s name (b', tr')).1.
Proof.
  intros Hsame. unfold DBConnection, defer, bind, emit, ret, get_backend. cbn beta iota.
  destruct (Get s ("dbs/" +:+ name)) as [?|[entry|]]; try reflexivity.
  destruct (DecodeJSON_configDB entry) as [?|dbInfo]; try reflexivity.
  destruct (String.eqb (DatabaseType dbInfo) "postgres").
  - destruct (Unmarshal_configPostgres (ConfigInfo dbInfo)); cbn; by rewrite ?Hsame.
  - destruct (String.eqb (DatabaseType dbInfo) "mysql"); [|reflexivity].
    destruct (Unmarshal_configMySQL (ConfigInfo dbInfo)); cbn; by rewrite ?Hsame.
Qed.

(** X1: what the comment on [ResetDB] promises of the next call.  With a
    stored entry that decodes, [DBConnection] right after [ResetDB] of the
    same name calls [Connect] with the nil pointer, whatever the map held
    before, and hands back nil with a nil error; the handle the map held
    was closed by the reset, once. *)
Theorem ResetDB_then_DBConnection (s : Sto) (name : string) (b : backend)
    (tr : list event) (entry : StorageEntry) (dbInfo : configDB) (cfg : dbConfig) :
  stored_envelope s name entry dbInfo ->
  typed_config dbInfo cfg ->
  let out := DBConnection Connect s name (ResetDB name (b, tr)).2 in
  out.1 = (NilDB, None) /\
  connected out.2.2 = connected tr ++ [NilDB] /\
  closed out.2.2 = closed tr ++ match dbs_at b name with NilDB => [] | db => [db] end /\
  dbs_at out.2.1 name = NilDB.
Proof.
  intros Henv Hcfg. cbv zeta. rewrite ResetDB_unfolded. cbn [snd].
  rewrite (DBConnection_usable Connect s name _ _ entry dbInfo cfg Henv Hcfg).
  cbn [fst snd]. rewrite dbs_at_insert_eq.
  rewrite !connected_app, !closed_app. cbn.
  repeat split.
  - destruct (dbs_at b name); cbn; by rewrite ?app_nil_r.
  - destruct (dbs_at b name); cbn; by rewrite ?app_nil_r.
Qed.

(** X2: [ResetDB] assigns nil, it does not delete: afterwards the name is
    a key of the map, so the keys are the old keys and the name.  On a
    name the map lacks, nothing is closed and the map has one entry
    more. *)
Theorem ResetDB_keeps_keys (name : string) (b : backend) (tr : list event) :
  let out := ResetDB name (b, tr) in
  dbs out.2.1 !! name = Some NilDB /\
  dom (dbs out.2.1) = {[ name ]} ∪ dom (dbs b) /\
  (dbs b !! name = None ->
   closed out.2.2 = closed tr /\ size (dbs out.2.1) = Datatypes.S (size (dbs b))).
Proof.
  cbv zeta. rewrite ResetDB_unfolded. cbn [fst snd dbs].
  split; [apply lookup_insert_eq|]. split; [apply dom_insert_L|].
  intros Hnone. split.
  - unfold dbs_at. rewrite Hnone. cbn. rewrite !closed_app. cbn. by rewrite app_nil_r.
  - by apply map_size_insert_None.
Qed.

(** X3: a reset of one name has no bearing on what [DBConnection] answers
    for another. *)
Theorem ResetDB_other_name (s : Sto) (name other : string) (b : backend)
    (tr : list event) :
  other <> name ->
  (DBConnection Connect s other (ResetDB name (b, tr)).2).1 =
  (DBConnection Connect s other (b, tr)).1.
Proof.
  intros Hne. rewrite ResetDB_unfolded. cbn [snd].
  apply DBConnection_answer. destruct b as [m]. by apply dbs_at_insert_ne.
Qed.

(** X4: resets commute: in either order two resets leave the same map
    and close the same handles. *)
Theorem ResetDB_commute (n1 n2 : string) (b : backend) (tr : list event) :
  let one_two := ResetDB n2 (ResetDB n1 (b, tr)).2 in
  let two_one := ResetDB n1 (ResetDB n2 (b, tr)).2 in
  one_two.2.1 = two_one.2.1 /\
  closed one_two.2.2 ≡ₚ closed two_one.2.2.
Proof.
  cbv zeta. rewrite !ResetDB_unfolded. cbn [snd].
  rewrite !ResetDB_unfolded. cbn [fst snd dbs].
  destruct (decide (n1 = n2)) as [->|Hne]; [done|].
  split.
  - f_equal. by apply insert_insert_ne.
  - destruct b as [m]. rewrite !dbs_at_insert_ne by done.
    rewrite !closed_app. cbn. rewrite !app_nil_r.
    rewrite <- !app_assoc. apply Permutation_app_head.
    destruct (dbs_at (mkBackend m) n1), (dbs_at (mkBackend m) n2); cbn;
      try reflexivity. apply perm_swap.
Qed.

(** C3: a second call does all the work of the first.  Whatever the
    store, the connector and the map, a call of [DBConnection] right
    after another for the same name finds the map as the first found it,
    reads the stored entry again and gives the same answer; with a stored
    entry that decodes to a postgres or mysql configuration it decodes
    again and calls [Connect] again, with the same pointer as the first
    call.  Nothing is kept from the first call for the second to find. *)
Theorem DBConnection_second_call_repeats (s : Sto) (name : string) (b : backend)
    (tr : list event) :
  let first := DBConnection Connect s name (b, tr) in
  let second := DBConnection Connect s name first.2 in
  second.1 = first.1 /\
  first.2.1 = b /\ second.2.1 = b /\
  count is_get first.2.2 = 1 + count is_get tr /\
  count is_get second.2.2 = 2 + count is_get tr /\
  (forall entry dbInfo cfg,
     stored_envelope s name entry dbInfo -> typed_config dbInfo cfg ->
     first.1 = (dbs_at b name, None) /\
     count is_decode first.2.2 = 1 + count is_decode tr /\
     count is_decode second.2.2 = 2 + count is_decode tr /\
     connected second.2.2 = connected tr ++ [dbs_at b name; dbs_at b name]).
Proof.
  cbv zeta.
  pose proof (DBConnection_keeps_backend Connect s name b tr) as Hb1.
  destruct (DBConnection_calls Connect s name b tr) as (evs1 & Htr1 & Hget1 & _).
  destruct (DBConnection Connect s name (b, tr)) as [r1 [b1 tr1]] eqn:E1.
  cbn [fst snd] in *. subst b1 tr1.
  pose proof (DBConnection_keeps_backend Connect s name b (tr ++ evs1)) as Hb2.
  destruct (DBConnection_calls Connect s name b (tr ++ evs1)) as (evs2 & Htr2 & Hget2 & _).
  split.
  { transitivity (DBConnection Connect s name (b, tr)).1;
      [by apply DBConnection_answer | by rewrite E1]. }
  split; [done|]. split; [done|].
  split; [rewrite count_app; lia|].
  split; [rewrite Htr2, !count_app; lia|].
  intros entry dbInfo cfg Henv Hcfg.
  rewrite (DBConnection_usable Connect s name b tr entry dbInfo cfg Henv Hcfg) in E1.
  injection E1 as <- Hevs.
  rewrite (DBConnection_usable Connect s name b _ entry dbInfo cfg Henv Hcfg).
  cbn [fst snd]. apply app_inv_head in Hevs. subst evs1.
  split; [done|].
  rewrite !count_app, !connected_app. cbn. rewrite <- app_assoc. cbn.
  repeat split; lia.
Qed.

End RegistryCompositions.

(** * What no interleaving of the two methods does *)

Section ConcurrentSafety.
Import Concurrent.
Context `{Database.Collaborators} {Sto : Type} `{Storage Sto}.
Variable s : Sto.

(** A step is the [Close] statement of a reset, its assignment of nil, or
    a step that neither closes nor touches the map. *)
Lemma step_thread_map (c : call) (p p' : pc) (l l' : bool) (b b' : backend)
    (evs : list event) :
  step_thread s c p l b = Some (p', l', b', evs) ->
  (exists n, c = CallResetDB n /\ p = pcClose /\ p' = pcClear /\ b' = b /\
             closed evs = match dbs_at b n with NilDB => [] | db => [db] end) \/
  (exists n, c = CallResetDB n /\ p = pcClear /\ p' = pcUnlock None /\
             b' = mkBackend (<[n := NilDB]> (dbs b)) /\ closed evs = []) \/
  (p <> pcClose /\ p <> pcClear /\ p' <> pcClear /\ b' = b /\ closed evs = [] /\
   (forall n, c = CallResetDB n -> has_cleared p' = true -> has_cleared p = true)).
Proof.
  destruct c as [n|n], p; cbn; intros Hs; repeat case_match; simplify_eq;
    try (right; right; repeat split; (done || (intros; simplify_eq; done)));
    try (right; left; exists n; done).
  all: left; exists n; repeat split; by destruct (dbs_at _ n).
Qed.


Lemma step_unfolded (i : nat) (st st' : state) :
  step s i st = Some st' ->
  exists c p p' l' b' evs,
    threads st !! i = Some (c, p) /\
    step_thread s c p (locked st) (shared st) = Some (p', l', b', evs) /\
    st' = mkState l' b' (trace st ++ evs) (<[i := (c, p')]> (threads st)).
Proof.
  unfold step.
  destruct (threads st !! i) as [[c p]|] eqn:Hi; [|done].
  destruct (step_thread s c p (locked st) (shared st)) as [[[[p' l'] b'] evs]|] eqn:Hs; [|done].
  intros [= <-]. by exists c, p, p', l', b', evs.
Qed.

Lemma dbs_at_cleared (b0 : backend) (n m : string) :
  dbs_at (mkBackend (<[n := NilDB]> (dbs b0))) m = dbs_at b0 m \/
  dbs_at (mkBackend (<[n := NilDB]> (dbs b0))) m = NilDB.
Proof.
  destruct (decide (m = n)) as [->|Hne].
  - right. apply dbs_at_insert_eq.
  - left. by rewrite dbs_at_insert_ne.
Qed.

Lemma step_only_removed (b : backend) (i : nat) (st st' : state) :
  step s i st = Some st' -> only_removed b st -> only_removed b st'.
Proof.
  intros (c & p & p' & l' & b' & evs & Hi & Hs & ->)%step_unfolded Hinv name.
  cbn [shared].
  destruct (step_thread_map _ _ _ _ _ _ _ _ Hs)
    as [(n & _ & _ & _ & -> & _) | [(n & _ & _ & _ & -> & _) | (_ & _ & _ & -> & _)]];
    [apply Hinv | | apply Hinv].
  destruct (dbs_at_cleared (shared st) n name) as [-> | ->]; [apply Hinv | by right].
Qed.

Lemma step_resets_hold (i : nat) (st st' : state) :
  step s i st = Some st' -> resets_hold st -> resets_hold st'.
Proof.
  intros (c & p & p' & l' & b' & evs & Hi & Hs & ->)%step_unfolded Hinv j m q.
  cbn [shared threads]. intros Hj Hq.
  destruct (decide (j = i)) as [->|Hne].
  - rewrite list_lookup_insert_eq in Hj by (by eapply lookup_lt_Some).
    injection Hj as -> ->.
    destruct (step_thread_map _ _ _ _ _ _ _ _ Hs)
      as [(n & _ & _ & -> & _) | [(n & [= ->] & _ & _ & -> & _) | (_ & _ & _ & -> & _ & Hc)]].
    + done.
    + apply dbs_at_insert_eq.
    + eapply Hinv; [exact Hi|]. by eapply Hc.
  - rewrite list_lookup_insert_ne in Hj by done.
    specialize (Hinv j m q Hj Hq).
    destruct (step_thread_map _ _ _ _ _ _ _ _ Hs)
      as [(n & _ & _ & _ & -> & _) | [(n & _ & _ & _ & -> & _) | (_ & _ & _ & -> & _)]];
      [done | | done].
    destruct (dbs_at_cleared (shared st) n m) as [-> | ->]; done.
Qed.

Lemma mutex_exclusive (st : state) (i j : nat) (ti tj : call * pc) :
  mutex_inv st ->
  threads st !! i = Some ti -> threads st !! j = Some tj ->
  holds_lock ti.2 = true -> holds_lock tj.2 = true -> i = j.
Proof.
  intros Hm Hi Hj Pi Pj. destruct (decide (i = j)) as [|Hne]; [done|].
  pose proof (count_pc_two holds_lock _ _ _ _ _ Hne Hi Hj Pi Pj) as Htwo.
  unfold mutex_inv in Hm. destruct (locked st); lia.
Qed.

Lemma step_closes_accounted (b : backend) (i : nat) (st st' : state) :
  step s i st = Some st' ->
  mutex_inv st -> only_removed b st ->
  closes_accounted b st -> closes_accounted b st'.
Proof.
  intros (c & p & p' & l' & b' & evs & Hi & Hs & ->)%step_unfolded Hm Hr
    (names & Hcl & Hnd & Hn).
  unfold closes_accounted. cbn [shared threads trace]. rewrite closed_app.
  assert (Hlt : i < length (threads st)) by (by eapply lookup_lt_Some).
  destruct (step_thread_map _ _ _ _ _ _ _ _ Hs)
    as [(n & -> & -> & -> & -> & Hev) | [(n & -> & -> & -> & -> & Hev) | (Hp1 & Hp2 & Hp' & -> & Hev & _)]];
    rewrite Hev.
  - (* the Close statement *)
    assert (Hkeep : forall m, m ∈ names ->
              dbs_at b m <> NilDB /\
              (dbs_at (shared st) m = NilDB \/
               exists j, <[i := (CallResetDB n, pcClear)]> (threads st) !! j
                         = Some (CallResetDB m, pcClear))).
    { intros m Hmem. destruct (Hn m Hmem) as [Hb [Hnil | [j Hj]]]; (split; [done|]).
      - by left.
      - right. exists j. rewrite list_lookup_insert_ne; [done|].
        intros <-. rewrite Hi in Hj. done. }
    destruct (dbs_at (shared st) n) as [|a] eqn:Hat.
    + exists names. rewrite app_nil_r. done.
    + exists (names ++ [n]).
      assert (Hbn : dbs_at b n = DBAt a).
      { destruct (Hr n) as [Heq | Heq]; congruence. }
      split; [by rewrite map_app, Hcl; cbn; rewrite Hbn|].
      split.
      * apply NoDup_app. split; [done|]. split; [|apply NoDup_singleton].
        intros m Hmem ->%list_elem_of_singleton.
        destruct (Hn n Hmem) as [_ [Hnil | [j Hj]]]; [congruence|].
        assert (i = j) by (by eapply (mutex_exclusive st i j _ _ Hm Hi Hj)).
        subst j. rewrite Hi in Hj. done.
      * intros m [Hmem | ->%list_elem_of_singleton]%elem_of_app; [by apply Hkeep|].
        split; [congruence|]. right. exists i. by apply list_lookup_insert_eq.
  - (* the assignment of nil *)
    exists names. rewrite app_nil_r. split; [done|]. split; [done|].
    intros m Hmem. destruct (Hn m Hmem) as [Hb [Hnil | [j Hj]]]; (split; [done|]).
    + left. destruct (dbs_at_cleared (shared st) n m) as [-> | ->]; done.
    + destruct (decide (j = i)) as [->|Hne].
      * rewrite Hi in Hj. injection Hj as ->. left. apply dbs_at_insert_eq.
      * right. exists j. by rewrite list_lookup_insert_ne.
  - (* any other step *)
    exists names. rewrite app_nil_r. split; [done|]. split; [done|].
    intros m Hmem. destruct (Hn m Hmem) as [Hb [Hnil | [j Hj]]]; (split; [done|]).
    + by left.
    + right. exists j. rewrite list_lookup_insert_ne; [done|].
      intros <-. rewrite Hi in Hj. by injection Hj.
Qed.


Lemma step_thread_fits (c : call) (p p' : pc) (l l' : bool) (b b' : backend)
    (evs : list event) :
  step_thread s c p l b = Some (p', l', b', evs) -> fits c p' = true.
Proof.
  destruct c, p; cbn; intros Hs; repeat case_match; simplify_eq; done.
Qed.

Lemma step_fits (i : nat) (st st' : state) :
  step s i st = Some st' ->
  Forall (fun t => fits t.1 t.2 = true) (threads st) ->
  Forall (fun t => fits t.1 t.2 = true) (threads st').
Proof.
  intros (c & p & p' & l' & b' & evs & Hi & Hs & ->)%step_unfolded Hall.
  cbn [threads]. apply Forall_insert; [done|]. by eapply step_thread_fits.
Qed.

(** A thread that has not returned can move, unless it waits for a held
    mutex. *)
Lemma step_thread_enabled (c : call) (p : pc) (l : bool) (b : backend) :
  fits c p = true -> is_done p = false -> (p = pcLock -> l = false) ->
  is_Some (step_thread s c p l b).
Proof.
  intros Hf Hd Hl. destruct c, p; cbn in *; try done;
    try (rewrite Hl by done); repeat case_match; done.
Qed.

Lemma count_pc_zero (P : pc -> bool) (ts : list (call * pc)) (i : nat) (t : call * pc) :
  count_pc P ts = 0 -> ts !! i = Some t -> P t.2 = false.
Proof.
  intros Hz Hi. destruct (P t.2) eqn:HP; [|done].
  pose proof (count_pc_one P ts i t Hi HP). lia.
Qed.

Lemma count_pc_pos (P : pc -> bool) (ts : list (call * pc)) :
  1 <= count_pc P ts -> exists i t, ts !! i = Some t /\ P t.2 = true.
Proof.
  induction ts as [|t ts IH]; [cbn; lia|]. rewrite count_pc_cons.
  destruct (P t.2) eqn:HP.
  - intros _. by exists 0, t.
  - cbn. intros Hpos. destruct (IH Hpos) as (i & t' & Hi & Ht). by exists (Datatypes.S i), t'.
Qed.

Lemma not_all_done (ts : list (call * pc)) :
  forallb (fun t => is_done t.2) ts = false ->
  exists i t, ts !! i = Some t /\ is_done t.2 = false.
Proof.
  induction ts as [|t ts IH]; [done|]. cbn [forallb].
  destruct (is_done t.2) eqn:Hd.
  - cbn. intros Hrest. destruct (IH Hrest) as (i & t' & Hi & Ht). by exists (Datatypes.S i), t'.
  - intros _. by exists 0, t.
Qed.

Lemma all_done_no_holder (ts : list (call * pc)) :
  forallb (fun t => is_done t.2) ts = true -> count_pc holds_lock ts = 0.
Proof.
  induction ts as [|[c p] ts IH]; [done|]. cbn [forallb snd].
  intros [Hd Hrest]%andb_prop. rewrite count_pc_cons, (IH Hrest). cbn [snd].
  by destruct p.
Qed.






Lemma init_none_holds (P : pc -> bool) (calls : list call) (b : backend) :
  P pcEnter = false -> count_pc P (threads (init calls b)) = 0.
Proof.
  intros HP. cbn [init threads]. induction calls as [|c cs IH]; [done|].
  cbn [map]. rewrite count_pc_cons, IH. cbn [snd]. by rewrite HP.
Qed.

Lemma run_calls (calls : list call) (b : backend) (schedule : list nat) (st : state) :
  run s schedule (init calls b) = Some st -> map fst (threads st) = calls.
Proof.
  intros Hrun.
  apply (run_keeps s (fun st0 => map fst (threads st0) = calls)) with (2 := Hrun).
  - intros i st0 st1 (c & p & p' & l' & b' & evs & Hi & Hs & ->)%step_unfolded Hm.
    cbn [threads]. rewrite <- Hm. clear Hm Hs.
    revert i Hi. induction (threads st0) as [|t ts IH]; intros [|i] Hi; try done.
    + by injection Hi as ->.
    + cbn in *. f_equal. by apply IH.
  - cbn [init threads]. clear Hrun. induction calls as [|c cs IH]; [done|].
    cbn [map fst]. by rewrite IH.
Qed.

(** What every reachable state keeps. *)
Lemma run_safe (calls : list call) (b : backend) (schedule : list nat) (st : state) :
  run s schedule (init calls b) = Some st ->
  mutex_inv st /\ only_removed b st /\ closes_accounted b st /\ resets_hold st /\
  Forall (fun t => fits t.1 t.2 = true) (threads st).
Proof.
  intros Hrun.
  apply (run_keeps s (fun st0 =>
           mutex_inv st0 /\ only_removed b st0 /\ closes_accounted b st0 /\
           resets_hold st0 /\ Forall (fun t => fits t.1 t.2 = true) (threads st0)))
    with (2 := Hrun).
  - intros i st0 st1 Hstep (Hm & Hr & Hc & Hh & Hf).
    split; [by eapply step_mutex_inv|]. split; [by eapply step_only_removed|].
    split; [by eapply step_closes_accounted|]. split; [by eapply step_resets_hold|].
    by eapply step_fits.
  - split; [unfold mutex_inv; by rewrite init_none_holds|].
    split; [by intros name; left|].
    split.
    { exists []. split; [done|]. split; [apply NoDup_nil_2|].
      intros n Hn. by apply elem_of_nil in Hn. }
    split.
    + intros i n p Hi Hp. cbn [init threads] in Hi.
      assert (p = pcEnter) as ->; [|done].
      clear Hrun Hp. revert i Hi.
      induction calls as [|c cs IH]; intros [|i] Hi; simplify_eq/=; eauto.
    + cbn [init threads]. clear Hrun. induction calls as [|c cs IH]; constructor; [|done].
      by destruct c.
Qed.

(** X5: no interleaving of [DBConnection] and [ResetDB] calls ever puts
    a handle into the map: every entry is what it was at the start, or
    nil. *)
Theorem handles_only_removed (calls : list call) (b : backend) (schedule : list nat)
    (st : state) :
  run s schedule (init calls b) = Some st ->
  forall name, dbs_at (shared st) name = dbs_at b name \/ dbs_at (shared st) name = NilDB.
Proof. intros Hrun. by apply (run_safe calls b schedule st Hrun). Qed.

(** X6: in every interleaving, [Close] is called only on handles the map
    held at the start, never on nil, and at most once for each name,
    however many threads reset that name. *)
Theorem handles_closed_once (calls : list call) (b : backend) (schedule : list nat)
    (st : state) :
  run s schedule (init calls b) = Some st ->
  exists names,
    NoDup names /\
    closed (trace st) = map (dbs_at b) names /\
    Forall (fun n => dbs_at b n <> NilDB) names.
Proof.
  intros Hrun.
  destruct (run_safe calls b schedule st Hrun) as (_ & _ & (names & Hcl & Hnd & Hn) & _).
  exists names. split; [done|]. split; [done|].
  apply Forall_forall. intros n Hmem. by apply (Hn n).
Qed.

(** X7: once every call has returned, each name that some thread reset
    holds nil, whatever the other threads did in between. *)
Theorem resets_last (calls : list call) (b : backend) (schedule : list nat)
    (st : state) (n : string) :
  run s schedule (init calls b) = Some st ->
  all_done st = true ->
  CallResetDB n ∈ calls ->
  dbs_at (shared st) n = NilDB.
Proof.
  intros Hrun Hdone Hin.
  destruct (run_safe calls b schedule st Hrun) as (_ & _ & _ & Hh & _).
  rewrite <- (run_calls calls b schedule st Hrun) in Hin.
  apply list_elem_of_fmap in Hin as ([c p] & Hc & Hmem). cbn in Hc. subst c.
  apply list_elem_of_lookup in Hmem as [i Hi].
  apply (Hh i n p Hi).
  unfold all_done in Hdone. rewrite forallb_forall in Hdone.
  assert (Hp : is_done p = true).
  { apply (Hdone (CallResetDB n, p)). apply list_elem_of_In. by eapply list_elem_of_lookup_2. }
  by destruct p.
Qed.

(** X8: the lock never wedges the threads: in every state they can
    reach, some thread can take a step, or every call has returned and
    the mutex is free. *)
Theorem no_deadlock (calls : list call) (b : backend) (schedule : list nat)
    (st : state) :
  run s schedule (init calls b) = Some st ->
  (all_done st = true /\ locked st = false) \/
  (exists i st', step s i st = Some st').
Proof.
  intros Hrun.
  destruct (run_safe calls b schedule st Hrun) as (Hm & _ & _ & _ & Hf).
  assert (Hmove : forall i c p, threads st !! i = Some (c, p) ->
                    is_done p = false -> (p = pcLock -> locked st = false) ->
                    exists i st', step s i st = Some st').
  { intros i c p Hi Hd Hl. exists i.
    assert (Hfit : fits c p = true) by (by apply (Forall_lookup_1 _ _ _ _ Hf Hi)).
    destruct (step_thread_enabled c p (locked st) (shared st) Hfit Hd Hl)
      as [[[[p' l'] b'] evs] Hs].
    unfold step. rewrite Hi, Hs. eauto. }
  unfold mutex_inv in Hm. destruct (locked st) eqn:Hl.
  - right. destruct (count_pc_pos holds_lock (threads st)) as (i & [c p] & Hi & Hp); [lia|].
    cbn [snd] in Hp. apply (Hmove i c p Hi); [by destruct p|]. intros ->. done.
  - destruct (all_done st) eqn:Hd; [by left|]. right.
    destruct (not_all_done _ Hd) as (i & [c p] & Hi & Hp). by apply (Hmove i c p Hi).
Qed.


End ConcurrentSafety.

(** * More on the okta configuration handlers *)

Section OktaHandlers.
Import Okta.
Context `{Okta.Collaborators} {Sto : Type} `{Storage Sto}.

(** X10: [Config] answers (nil, nil) exactly when nothing is stored under
    [config], answers with the decoded record when the stored entry
    decodes, and has an error exactly when the read or the decoding
    failed; a record and an error never come together. *)
Theorem Config_outcomes (s : Sto) :
  (Config s = (None, None) <-> Logical.Get s "config" = inr None) /\
  (forall entry result,
     Logical.Get s "config" = inr (Some entry) ->
     DecodeJSON_ConfigEntry entry = inr result ->
     Config s = (Some result, None)) /\
  ((Config s).2 <> None <->
   (exists err, Logical.Get s "config" = inl err) \/
   (exists entry err, Logical.Get s "config" = inr (Some entry) /\
                      DecodeJSON_ConfigEntry entry = inl err)) /\
  ((Config s).1 <> None -> (Config s).2 = None).
Proof.
  unfold Config.
  destruct (Logical.Get s "config") as [err|[entry|]] eqn:Hget.
  - repeat split; try done; eauto.
  - destruct (DecodeJSON_ConfigEntry entry) as [err|result] eqn:Hdec.
    + repeat split; try done; try congruence; eauto.
    + repeat split; try done; try congruence.
      intros [[err Herr] | (entry' & err & Heq & Hd)]; congruence.
  - repeat split; try done.
    intros [[err Herr] | (entry' & err & Heq & Hd)]; congruence.
Qed.

(** X11: the existence check and the read agree: the check says true
    exactly when the read has a response, says false with a nil error
    exactly when the read has neither response nor error, and both have
    the same error.  The request's fields and operation play no part. *)
Theorem pathConfigExistenceCheck_agrees_with_read (req req' : Request Sto)
    (d d' : FieldData) :
  Storage_of req = Storage_of req' ->
  ((pathConfigExistenceCheck req d).1 = true <->
   exists resp, pathConfigRead req' d' = (Some resp, None)) /\
  (pathConfigExistenceCheck req d = (false, None) <->
   pathConfigRead req' d' = (None, None)) /\
  (pathConfigExistenceCheck req d).2 = (pathConfigRead req' d').2.
Proof.
  intros Hs. unfold pathConfigExistenceCheck, pathConfigRead. rewrite Hs.
  destruct (Config (Storage_of req')) as [[cfg|] [err|]]; cbn;
    (split; [split; [try done; intros _; eauto | try done; intros [resp Hr]; done]|]);
    (split; [split; done | done]).
Qed.


(** A request whose [base_url] does not parse is answered with the error
    response, and the storage is the one the request came with. *)
Lemma pathConfigWrite_rejects_url (req : Request Sto) (d : FieldData)
    (stored : option ConfigEntry) (c : ascii) (u : string) (err : error) :
  Config (Storage_of req) = (stored, None) ->
  conforms Fields d = true ->
  GetOk d "base_url" = Some (VString (String c u)) ->
  url_Parse (String c u) = Some err ->
  pathConfigWrite req d =
    Some ((Some (ErrorResponse ("Error parsing given base_url: " +:+ Error err)), None),
          Storage_of req).
Proof.
  intros HConfig Hconf Hb Hparse.
  destruct (conforms_Fields d Hconf)
    as ((o & Ho) & (t & Ht) & _ & _ & _ & Oo & Ot & _).
  unfold pathConfigWrite. rewrite HConfig, Hb, Ho, Ht.
  destruct (GetOk d "organization") as [x|]; [destruct (Oo x eq_refl) as [? ->]|];
  (destruct (GetOk d "token") as [x|]; [destruct (Ot x eq_refl) as [? ->]|]);
  destruct (decide (Op req = CreateOperation)); cbn; by rewrite Hparse.
Qed.

(** X12: with fields of the declared types the write never panics, and
    whatever it answers, it never answers with data: the response is nil
    or an error response with a nil error.  The storage it leaves is the
    one it was given, or the one a single [Put] of an encoded record
    left, and then the answer is that [Put]'s error. *)
Theorem pathConfigWrite_outcomes (req : Request Sto) (d : FieldData) :
  conforms Fields d = true ->
  exists r s',
    pathConfigWrite req d = Some (r, s') /\
    (r.1 = None \/ exists text, r = (Some (ErrorResponse text), None)) /\
    (s' = Storage_of req \/
     exists cfg jsonCfg,
       StorageEntryJSON "config" cfg = inr jsonCfg /\
       s' = (Logical.Put (Storage_of req) jsonCfg).2 /\
       r = (None, (Logical.Put (Storage_of req) jsonCfg).1)).
Proof.
  intros Hconf.
  destruct (Config (Storage_of req)) as [stored [err|]] eqn:HConfig.
  { exists (None, Some err), (Storage_of req).
    split; [unfold pathConfigWrite; by rewrite HConfig|]. split; by left. }
  assert (Hu : (exists c u err, GetOk d "base_url" = Some (VString (String c u)) /\
                                url_Parse (String c u) = Some err) \/
               (forall u, GetOk d "base_url" = Some (VString u) -> u <> EmptyString ->
                          url_Parse u = None)).
  { destruct (GetOk d "base_url") as [[[|c u]| |]|]; try (right; intros u' [= <-]; done);
      try (by right).
    destruct (url_Parse (String c u)) as [err|] eqn:Hp; [left; eauto|].
    right. by intros u' [= <-]. }
  destruct Hu as [(c & u & err & Hb & Hp) | Hurl].
  - eexists _, _. split; [by eapply pathConfigWrite_rejects_url|].
    split; [right; eauto | by left].
  - rewrite (pathConfigWrite_stores_merge req d stored HConfig Hconf Hurl).
    destruct (StorageEntryJSON "config" _) as [err|jsonCfg] eqn:Henc.
    + eexists _, _. split; [done|]. split; by left.
    + eexists _, _. split; [done|]. split; [by left|]. right. eauto.
Qed.

(** X13: on a create as on an update, a field the request carries takes
    the request's value, the durations turned from seconds into a
    [time.Duration]; an empty [base_url] is the one exception: it leaves
    the stored base URL as it was, so a write cannot clear it. *)
Theorem pathConfigWrite_given_fields (req : Request Sto) (d : FieldData)
    (stored : option ConfigEntry) :
  Config (Storage_of req) = (stored, None) ->
  conforms Fields d = true ->
  (forall u, GetOk d "base_url" = Some (VString u) -> u <> EmptyString -> url_Parse u = None) ->
  let old := default zeroConfigEntry stored in
  exists merged,
    pathConfigWrite req d =
      match StorageEntryJSON "config" merged with
      | inl err => Some ((None, Some err), Storage_of req)
      | inr jsonCfg =>
          Some ((None, (Logical.Put (Storage_of req) jsonCfg).1),
                (Logical.Put (Storage_of req) jsonCfg).2)
      end /\
    (forall v, GetOk d "organization" = Some (VString v) -> Org merged = v) /\
    (forall v, GetOk d "token" = Some (VString v) -> Token merged = v) /\
    (forall v, GetOk d "base_url" = Some (VString v) -> v <> EmptyString -> BaseURL merged = v) /\
    (GetOk d "base_url" = Some (VString EmptyString) -> BaseURL merged = BaseURL old) /\
    (forall n, GetOk d "ttl" = Some (VInt n) -> TTL merged = seconds n) /\
    (forall n, GetOk d "max_ttl" = Some (VInt n) -> MaxTTL merged = seconds n).
Proof.
  intros HConfig Hconf Hurl old.
  exists (merge_fields old d (Op req)).
  split; [by apply pathConfigWrite_stores_merge|].
  unfold merge_fields, merge_string, merge_seconds. cbn [Org Token BaseURL TTL MaxTTL].
  repeat split.
  - by intros v ->.
  - by intros v ->.
  - intros v -> Hv. by destruct v.
  - by intros ->.
  - by intros n ->.
  - by intros n ->.
Qed.

Lemma merge_fields_twice (old : ConfigEntry) (d : FieldData) (op : Operation) :
  merge_fields (merge_fields old d op) d op = merge_fields old d op.
Proof.
  unfold merge_fields, merge_string, merge_seconds. cbn [Org Token BaseURL TTL MaxTTL].
  f_equal; repeat case_match; done.
Qed.

Section LawfulStore.
Variables (req : Request Sto) (d : FieldData) (stored : option ConfigEntry).
Let merged := merge_fields (default zeroConfigEntry stored) d (Op req).
Hypothesis HConfig : Config (Storage_of req) = (stored, None).
Hypothesis Hconf : conforms Fields d = true.
Hypothesis Hurl :
  forall u, GetOk d "base_url" = Some (VString u) -> u <> EmptyString -> url_Parse u = None.
(** the record comes back from its JSON, under the key it was given *)
Hypothesis Hcodec :
  forall e, StorageEntryJSON "config" merged = inr e ->
            Key e = "config" /\ DecodeJSON_ConfigEntry e = inr merged.
(** the store hands back what was put *)
Hypothesis Hstore :
  forall e s1, Logical.Put (Storage_of req) e = (None, s1) ->
               Logical.Get s1 (Key e) = inr (Some e).

Lemma written_record_reads_back (s' : Sto) :
  pathConfigWrite req d = Some ((None, None), s') ->
  Config s' = (Some merged, None).
Proof.
  rewrite (pathConfigWrite_stores_merge req d stored HConfig Hconf Hurl).
  fold merged.
  destruct (StorageEntryJSON "config" merged) as [err|e] eqn:Henc; [done|].
  destruct (Hcodec e eq_refl) as [Hkey Hdec].
  destruct (Logical.Put (Storage_of req) e) as [[err|] s1] eqn:Hput; [done|].
  cbn. intros [= <-]. unfold Config.
  rewrite <- Hkey, (Hstore e s1 Hput). by rewrite Hdec.
Qed.

End LawfulStore.

(** X14: write, then read.  On a store that hands back what was put, and
    with a JSON encoding the record comes back from, a write that
    succeeded is seen by all three readers: [Config] gives the merged
    record, the existence check says true, and the read answers with its
    organization, base URL and durations. *)
Theorem pathConfigWrite_then_read (req : Request Sto) (d : FieldData)
    (stored : option ConfigEntry) (s' : Sto) (op' : Operation) (d' : FieldData) :
  let merged := merge_fields (default zeroConfigEntry stored) d (Op req) in
  Config (Storage_of req) = (stored, None) ->
  conforms Fields d = true ->
  (forall u, GetOk d "base_url" = Some (VString u) -> u <> EmptyString -> url_Parse u = None) ->
  (forall e, StorageEntryJSON "config" merged = inr e ->
             Key e = "config" /\ DecodeJSON_ConfigEntry e = inr merged) ->
  (forall e s1, Logical.Put (Storage_of req) e = (None, s1) ->
                Logical.Get s1 (Key e) = inr (Some e)) ->
  pathConfigWrite req d = Some ((None, None), s') ->
  Config s' = (Some merged, None) /\
  pathConfigExistenceCheck (mkRequest op' s') d' = (true, None) /\
  exists data,
    pathConfigRead (mkRequest op' s') d' = (Some (mkResponse data), None) /\
    data !! "organization" = Some (VString (Org merged)) /\
    data !! "base_url" = Some (VString (BaseURL merged)) /\
    data !! "ttl" = Some (VDuration (TTL merged)) /\
    data !! "max_ttl" = Some (VDuration (MaxTTL merged)).
Proof.
  intros merged HConfig Hconf Hurl Hcodec Hstore Hw.
  pose proof (written_record_reads_back req d stored HConfig Hconf Hurl Hcodec Hstore s' Hw)
    as Hread.
  fold merged in Hread.
  split; [done|].
  unfold pathConfigExistenceCheck, pathConfigRead. cbn [Storage_of]. rewrite Hread.
  split; [done|].
  eexists. split; [reflexivity|]. repeat split; by simplify_map_eq.
Qed.

(** X15: the same request once more.  After a write that succeeded (on
    such a store, with such an encoding), the same fields with the same
    operation merge to the same record: the second write hands the very
    same record to storage. *)
Theorem pathConfigWrite_again (req : Request Sto) (d : FieldData)
    (stored : option ConfigEntry) (s' : Sto) :
  let merged := merge_fields (default zeroConfigEntry stored) d (Op req) in
  Config (Storage_of req) = (stored, None) ->
  conforms Fields d = true ->
  (forall u, GetOk d "base_url" = Some (VString u) -> u <> EmptyString -> url_Parse u = None) ->
  (forall e, StorageEntryJSON "config" merged = inr e ->
             Key e = "config" /\ DecodeJSON_ConfigEntry e = inr merged) ->
  (forall e s1, Logical.Put (Storage_of req) e = (None, s1) ->
                Logical.Get s1 (Key e) = inr (Some e)) ->
  pathConfigWrite req d = Some ((None, None), s') ->
  exists jsonCfg,
    StorageEntryJSON "config" merged = inr jsonCfg /\
    s' = (Logical.Put (Storage_of req) jsonCfg).2 /\
    pathConfigWrite (mkRequest (Op req) s') d =
      Some ((None, (Logical.Put s' jsonCfg).1), (Logical.Put s' jsonCfg).2).
Proof.
  intros merged HConfig Hconf Hurl Hcodec Hstore Hw.
  pose proof (written_record_reads_back req d stored HConfig Hconf Hurl Hcodec Hstore s' Hw)
    as Hread.
  subst merged.
  pose proof Hw as Hw1.
  rewrite (pathConfigWrite_stores_merge req d stored HConfig Hconf Hurl) in Hw1.
  destruct (StorageEntryJSON "config" _) as [err|e] eqn:Henc; [done|].
  exists e. split; [done|].
  split; [by injection Hw1 as _ <-|].
  rewrite (pathConfigWrite_stores_merge (mkRequest (Op req) s') d _ Hread Hconf Hurl).
  cbn [default from_option id Op Storage_of] in *.
  by rewrite merge_fields_twice, Henc.
Qed.


(** X16: a create overwrites every field: whatever record is stored, the
    same fields merge to the same record, as long as the request does not
    carry an empty [base_url] (which keeps the stored one). *)
Theorem pathConfigWrite_create_overwrites (req1 req2 : Request Sto) (d : FieldData)
    (stored1 stored2 : option ConfigEntry) :
  Op req1 = CreateOperation ->
  Op req2 = CreateOperation ->
  Config (Storage_of req1) = (stored1, None) ->
  Config (Storage_of req2) = (stored2, None) ->
  conforms Fields d = true ->
  (forall u, GetOk d "base_url" = Some (VString u) -> u <> EmptyString -> url_Parse u = None) ->
  GetOk d "base_url" <> Some (VString EmptyString) ->
  exists merged,
    pathConfigWrite req1 d =
      match StorageEntryJSON "config" merged with
      | inl err => Some ((None, Some err), Storage_of req1)
      | inr jsonCfg =>
          Some ((None, (Logical.Put (Storage_of req1) jsonCfg).1),
                (Logical.Put (Storage_of req1) jsonCfg).2)
      end /\
    pathConfigWrite req2 d =
      match StorageEntryJSON "config" merged with
      | inl err => Some ((None, Some err), Storage_of req2)
      | inr jsonCfg =>
          Some ((None, (Logical.Put (Storage_of req2) jsonCfg).1),
                (Logical.Put (Storage_of req2) jsonCfg).2)
      end.
Proof.
  intros Hop1 Hop2 HC1 HC2 Hconf Hurl Hne.
  exists (merge_fields (default zeroConfigEntry stored1) d CreateOperation).
  rewrite (pathConfigWrite_stores_merge req1 d stored1 HC1 Hconf Hurl), Hop1.
  rewrite (pathConfigWrite_stores_merge req2 d stored2 HC2 Hconf Hurl), Hop2.
  split; [done|].
  replace (merge_fields (default zeroConfigEntry stored2) d CreateOperation)
    with (merge_fields (default zeroConfigEntry stored1) d CreateOperation); [done|].
  destruct (conforms_Fields d Hconf)
    as ((o & Ho) & (t & Ht) & (u & Hu) & (n & Hn) & (m & Hm) & Oo & Ot & Ou & On & Om).
  unfold merge_fields, merge_string, merge_seconds. rewrite Ho, Ht, Hu, Hn, Hm.
  destruct (GetOk d "organization") as [x|]; [destruct (Oo x eq_refl) as [? ->]|];
  (destruct (GetOk d "token") as [x|]; [destruct (Ot x eq_refl) as [? ->]|]);
  (destruct (GetOk d "ttl") as [x|]; [destruct (On x eq_refl) as [? ->]|]);
  (destruct (GetOk d "max_ttl") as [x|]; [destruct (Om x eq_refl) as [? ->]|]);
  (destruct (GetOk d "base_url") as [x|]; [destruct (Ou x eq_refl) as [[|? ?] ->]|]);
  done.
Qed.

Lemma wrap64_small (z : Z) : (- 2 ^ 63 <= z < 2 ^ 63)%Z -> wrap64 z = z.
Proof. intros Hz. unfold wrap64. rewrite Z.mod_small; lia. Qed.

Lemma wrap64_over (z : Z) : (2 ^ 63 <= z < 2 ^ 63 + 2 ^ 64)%Z -> wrap64 z = (z - 2 ^ 64)%Z.
Proof.
  intros Hz. unfold wrap64.
  replace (z + 2 ^ 63)%Z with ((z + 2 ^ 63 - 2 ^ 64) + 1 * 2 ^ 64)%Z by lia.
  rewrite Z_mod_plus_full, Z.mod_small; lia.
Qed.

(** X17: [time.Duration(n) * time.Second] in 64 bits.  Up to 9223372036
    seconds (some 292 years) either way the duration is [n] seconds to
    the nanosecond; from 9223372037 seconds on the product overflows, and
    the stored duration is negative. *)
Theorem seconds_range (n : Z) :
  ((-9223372036 <= n <= 9223372036)%Z -> seconds n = (n * Second)%Z) /\
  ((9223372037 <= n <= 18446744073)%Z ->
   seconds n = (n * Second - 2 ^ 64)%Z /\ (seconds n < 0)%Z).
Proof.
  unfold seconds, Second. split; intros Hn.
  - rewrite (wrap64_small n) by lia. apply wrap64_small. lia.
  - rewrite (wrap64_small n) by lia. rewrite wrap64_over by lia. lia.
Qed.

End OktaHandlers.

Section OktaClientFacts.
Import Okta.
Variable NewClient : string -> Client.

(** X18: [OktaClient] overrides the library's endpoint and token only
    with non-empty stored values: the client is made for the stored
    organization, its endpoint is the stored base URL or else the
    library's default, its token the stored token or else the library's
    default, and a default that is not empty is never replaced by the
    empty string. *)
Theorem OktaClient_overrides (c : ConfigEntry) :
  let dflt := NewClient (Org c) in
  let client := OktaClient NewClient c in
  client_org client = client_org dflt /\
  Url client = (if decide (BaseURL c = EmptyString) then Url dflt else BaseURL c) /\
  ApiToken client = (if decide (Token c = EmptyString) then ApiToken dflt else Token c) /\
  (Url dflt <> EmptyString -> Url client <> EmptyString) /\
  (ApiToken dflt <> EmptyString -> ApiToken client <> EmptyString).
Proof.
  cbv zeta. unfold OktaClient.
  destruct (String.eqb_spec (BaseURL c) EmptyString) as [Hb|Hb];
    destruct (String.eqb_spec (Token c) EmptyString) as [Ht|Ht];
    cbn; repeat case_decide; try done.
Qed.

End OktaClientFacts.

(** ** The compositions on concrete stores *)

Import Concurrent Fixtures.

Lemma DBConnection_second_call_repeats_witness :
  let first := DBConnection connect_ok store_db1 "db1" (Backend, []) in
  let second := DBConnection connect_ok store_db1 "db1" first.2 in
  first.1 = (NilDB, None) /\
  second.1 = (NilDB, None) /\
  second.2.1 = Backend /\
  count is_get second.2.2 = 2 /\
  count is_decode second.2.2 = 2 /\
  connected second.2.2 = [NilDB; NilDB].
Proof.
  cbv zeta.
  assert (Henv : stored_envelope store_db1 "db1"
                   (mkEntry "dbs/db1" (bytes_of "postgres|host=pg1"))
                   (mkConfigDB "postgres" (bytes_of "host=pg1")))
    by (split; reflexivity).
  assert (Hcfg : typed_config (mkConfigDB "postgres" (bytes_of "host=pg1"))
                   (@OfPostgres db_collaborators "host=pg1"))
    by (left; split; [reflexivity|]; eexists; split; reflexivity).
  destruct (DBConnection_second_call_repeats connect_ok store_db1 "db1" Backend [])
    as (Wsame & _ & Wb & _ & Wget & W).
  destruct (W _ _ _ Henv Hcfg) as (Wfirst & _ & Wdec & Wcon).
  split; [exact Wfirst|]. split; [by rewrite Wsame|].
  split; [exact Wb|]. split; [exact Wget|]. split; [exact Wdec|exact Wcon].
Defined.

Lemma ResetDB_then_DBConnection_witness :
  let out := DBConnection connect_ok store_db1 "db1" (ResetDB "db1" (backend_db1, [])).2 in
  out.1 = (NilDB, None) /\
  connected out.2.2 = [NilDB] /\
  closed out.2.2 = [DBAt 7].
Proof.
  cbv zeta.
  assert (Henv : stored_envelope store_db1 "db1"
                   (mkEntry "dbs/db1" (bytes_of "postgres|host=pg1"))
                   (mkConfigDB "postgres" (bytes_of "host=pg1")))
    by (split; reflexivity).
  assert (Hcfg : typed_config (mkConfigDB "postgres" (bytes_of "host=pg1"))
                   (@OfPostgres db_collaborators "host=pg1"))
    by (left; split; [reflexivity|]; eexists; split; reflexivity).
  destruct (ResetDB_then_DBConnection connect_ok store_db1 "db1" backend_db1 [] _ _ _
              Henv Hcfg) as (W1 & W2 & W3 & _).
  split; [exact W1|]. split; [exact W2|exact W3].
Defined.

Lemma ResetDB_keeps_keys_witness :
  let out := ResetDB "db2" (backend_db1, []) in
  dbs out.2.1 !! "db2" = Some NilDB /\
  closed out.2.2 = [] /\
  size (dbs out.2.1) = 2.
Proof.
  cbv zeta.
  destruct (ResetDB_keeps_keys "db2" backend_db1 []) as (W1 & _ & W3).
  destruct (W3 eq_refl) as (W4 & W5).
  split; [exact W1|]. split; [exact W4|exact W5].
Defined.

Lemma ResetDB_other_name_witness :
  (DBConnection connect_ok store_db1 "db1" (ResetDB "db2" (backend_db1, [])).2).1 =
  (DBConnection connect_ok store_db1 "db1" (backend_db1, [])).1.
Proof.
  apply (ResetDB_other_name connect_ok store_db1 "db2" "db1" backend_db1 []).
  discriminate.
Defined.

Lemma handles_only_removed_witness :
  match run store_db1 race_schedule (init race_calls backend_db1) with
  | Some st => dbs_at (shared st) "db1" = DBAt 7 \/ dbs_at (shared st) "db1" = NilDB
  | None => False
  end.
Proof.
  pose proof (handles_only_removed store_db1 race_calls backend_db1 race_schedule) as W.
  assert (Hrun : (fun _ => tt) <$> run store_db1 race_schedule (init race_calls backend_db1)
                 = Some tt) by (by vm_compute).
  destruct (run store_db1 race_schedule (init race_calls backend_db1)) as [st|];
    [|discriminate Hrun].
  exact (W st eq_refl "db1").
Defined.

Lemma handles_closed_once_witness :
  match run store_db1 race_schedule (init race_calls backend_db1) with
  | Some st =>
      exists names, NoDup names /\ closed (trace st) = map (dbs_at backend_db1) names /\
                    Forall (fun n => dbs_at backend_db1 n <> NilDB) names
  | None => False
  end.
Proof.
  pose proof (handles_closed_once store_db1 race_calls backend_db1 race_schedule) as W.
  assert (Hrun : (fun _ => tt) <$> run store_db1 race_schedule (init race_calls backend_db1)
                 = Some tt) by (by vm_compute).
  destruct (run store_db1 race_schedule (init race_calls backend_db1)) as [st|];
    [|discriminate Hrun].
  exact (W st eq_refl).
Defined.

Lemma resets_last_witness :
  match run store_db1 race_schedule (init race_calls backend_db1) with
  | Some st => dbs_at (shared st) "db1" = NilDB
  | None => False
  end.
Proof.
  pose proof (resets_last store_db1 race_calls backend_db1 race_schedule) as W.
  assert (Hdone : all_done <$> run store_db1 race_schedule (init race_calls backend_db1)
                  = Some true) by (by vm_compute).
  destruct (run store_db1 race_schedule (init race_calls backend_db1)) as [st|];
    [|discriminate Hdone].
  injection Hdone as Hdone.
  apply (W st "db1" eq_refl Hdone). unfold race_calls. set_solver.
Defined.

Lemma no_deadlock_witness :
  match run store_db1 [1; 2; 0; 1] (init race_calls backend_db1) with
  | Some st =>
      (all_done st = true /\ locked st = false) \/
      (exists i st', step store_db1 i st = Some st')
  | None => False
  end.
Proof.
  pose proof (no_deadlock store_db1 race_calls backend_db1 [1; 2; 0; 1]) as W.
  assert (Hrun : (fun _ => tt) <$> run store_db1 [1; 2; 0; 1] (init race_calls backend_db1)
                 = Some tt) by (by vm_compute).
  destruct (run store_db1 [1; 2; 0; 1] (init race_calls backend_db1)) as [st|];
    [|discriminate Hrun].
  exact (W st eq_refl).
Defined.


Import Okta.

Lemma Config_outcomes_witness :
  Config (∅ : InmemStorage) = (None, None) /\
  Config store_okta = (Some stored_config, None) /\
  (Config ({[ "config" := bytes_of "dev-1;s3cr3t" ]} : InmemStorage)).2 <> None /\
  (Config Sealed).2 <> None.
Proof.
  split; [|split; [|split]].
  - destruct (@Config_outcomes okta_collaborators InmemStorage Inmem ∅) as (W & _).
    apply W. reflexivity.
  - destruct (@Config_outcomes okta_collaborators InmemStorage Inmem store_okta) as (_ & W & _).
    eapply W; reflexivity.
  - destruct (@Config_outcomes okta_collaborators InmemStorage Inmem
                {[ "config" := bytes_of "dev-1;s3cr3t" ]}) as (_ & _ & W & _).
    apply W. right. eexists _, _. split; reflexivity.
  - destruct (@Config_outcomes okta_collaborators SealedStorage SealedStore Sealed)
      as (_ & _ & W & _).
    apply W. left. eexists. reflexivity.
Defined.

Lemma pathConfigExistenceCheck_agrees_with_read_witness :
  (pathConfigExistenceCheck (mkRequest CreateOperation store_okta)
     (fields [("ttl", VInt 5)])).2 =
  (pathConfigRead (mkRequest ReadOperation store_okta) (fields [])).2.
Proof.
  apply (@pathConfigExistenceCheck_agrees_with_read okta_collaborators InmemStorage Inmem
           (mkRequest CreateOperation store_okta) (mkRequest ReadOperation store_okta)).
  reflexivity.
Defined.

Lemma pathConfigWrite_outcomes_witness :
  exists r s',
    pathConfigWrite (mkRequest UpdateOperation store_okta) (fields [("ttl", VInt 5)])
      = Some (r, s') /\
    (r.1 = None \/ exists text, r = (Some (ErrorResponse text), None)).
Proof.
  destruct (@pathConfigWrite_outcomes okta_collaborators InmemStorage Inmem
              (mkRequest UpdateOperation store_okta) (fields [("ttl", VInt 5)]) eq_refl)
    as (r & s' & W1 & W2 & _).
  exists r, s'. split; [exact W1|exact W2].
Defined.

Lemma pathConfigWrite_given_fields_witness :
  exists merged,
    TTL merged = seconds 5 /\ Org merged = "acme".
Proof.
  destruct (@pathConfigWrite_given_fields okta_collaborators InmemStorage Inmem
              (mkRequest UpdateOperation store_okta)
              (fields [("ttl", VInt 5); ("organization", VString "acme")])
              (Some stored_config) eq_refl eq_refl)
    as (merged & _ & Wo & _ & _ & _ & Wt & _).
  { intros u Hu. discriminate Hu. }
  exists merged. split; [by apply Wt|by apply Wo].
Defined.

Lemma pathConfigWrite_then_read_witness :
  let s' : InmemStorage := {[ "config" := bytes_of "dev-1;s3cr3t;oktapreview.com;5;120" ]} in
  pathConfigExistenceCheck (mkRequest ReadOperation s') (fields []) = (true, None) /\
  (Config s').2 = None.
Proof.
  cbv zeta.
  destruct (@pathConfigWrite_then_read okta_collaborators InmemStorage Inmem
              (mkRequest UpdateOperation store_okta) (fields [("ttl", VInt 5)])
              (Some stored_config)
              ({[ "config" := bytes_of "dev-1;s3cr3t;oktapreview.com;5;120" ]})
              ReadOperation (fields []))
    as (W1 & W2 & _).
  - reflexivity.
  - reflexivity.
  - intros u Hu. discriminate Hu.
  - intros e [= <-]. split; [reflexivity|by vm_compute].
  - intros [k v] s1 [= <-]. cbn. by rewrite lookup_insert_eq.
  - by vm_compute.
  - split; [exact W2|]. by rewrite W1.
Defined.

Lemma pathConfigWrite_again_witness :
  let s' : InmemStorage := {[ "config" := bytes_of "dev-1;s3cr3t;oktapreview.com;5;120" ]} in
  exists jsonCfg,
    pathConfigWrite (mkRequest UpdateOperation s') (fields [("ttl", VInt 5)]) =
      Some ((None, (Logical.Put s' jsonCfg).1), (Logical.Put s' jsonCfg).2).
Proof.
  cbv zeta.
  destruct (@pathConfigWrite_again okta_collaborators InmemStorage Inmem
              (mkRequest UpdateOperation store_okta) (fields [("ttl", VInt 5)])
              (Some stored_config)
              ({[ "config" := bytes_of "dev-1;s3cr3t;oktapreview.com;5;120" ]}))
    as (jsonCfg & _ & _ & W).
  - reflexivity.
  - reflexivity.
  - intros u Hu. discriminate Hu.
  - intros e [= <-]. split; [reflexivity|by vm_compute].
  - intros [k v] s1 [= <-]. cbn. by rewrite lookup_insert_eq.
  - by vm_compute.
  - exists jsonCfg. exact W.
Defined.

Lemma pathConfigWrite_create_overwrites_witness :
  exists merged,
    pathConfigWrite (mkRequest CreateOperation store_okta) (fields [("ttl", VInt 5)]) =
      match encode_config "config" merged with
      | inl err => Some ((None, Some err), store_okta)
      | inr jsonCfg =>
          Some ((None, (Logical.Put store_okta jsonCfg).1),
                (Logical.Put store_okta jsonCfg).2)
      end /\
    pathConfigWrite (mkRequest CreateOperation (∅ : InmemStorage)) (fields [("ttl", VInt 5)]) =
      match encode_config "config" merged with
      | inl err => Some ((None, Some err), (∅ : InmemStorage))
      | inr jsonCfg =>
          Some ((None, (Logical.Put (∅ : InmemStorage) jsonCfg).1),
                (Logical.Put (∅ : InmemStorage) jsonCfg).2)
      end.
Proof.
  apply (@pathConfigWrite_create_overwrites okta_collaborators InmemStorage Inmem
           (mkRequest CreateOperation store_okta) (mkRequest CreateOperation ∅)
           (fields [("ttl", VInt 5)]) (Some stored_config) None);
    try reflexivity; [intros u Hu; discriminate Hu | discriminate].
Defined.

Lemma seconds_range_witness :
  seconds 60 = (60 * Second)%Z /\ (seconds 9223372037 < 0)%Z.
Proof.
  split.
  - apply (seconds_range 60). lia.
  - apply (seconds_range 9223372037). lia.
Defined.

Lemma OktaClient_overrides_witness :
  Url (OktaClient new_client (mkConfigEntry "dev-1" "s3cr3t" EmptyString 0 0)) <> EmptyString.
Proof.
  apply (OktaClient_overrides new_client (mkConfigEntry "dev-1" "s3cr3t" EmptyString 0 0)).
  discriminate.
Defined.

